(** * Fundamental matrix estimation with RANSAC / ORSA and refinement

    A shallow embedding of [src/libOrsa/orsa_fundamental.cpp]: the error
    statistics [display_stats], the construction of the model estimator
    [build_model], the safety-checked refinement [refine] and the two entry
    operations [ransac_fundamental] and [orsa_fundamental].

    C++ [double] is IEEE 754 binary64, which is exactly Rocq's primitive
    [float]; the arithmetic below is therefore bit-exact and executable.
    [int] values are integers of [Z]; [std::vector<T>] is [list T]. *)

From Stdlib Require Import ZArith List Bool Lia.
From Stdlib Require Import Permutation.
From Stdlib Require Import Floats.
From Stdlib Require Uint63.
Import ListNotations.

Open Scope float_scope.

(** ** Numeric conversions *)

Module Double.

(** Conversion [(double)w] of an [int]. *)
Definition of_int (w : Z) : float :=
  if (w <? 0)%Z then - of_uint63 (Uint63.of_Z (- w))
  else of_uint63 (Uint63.of_Z w).

(** Conversion of a [size_t] to [double], for the size of a container,
    which is below 2^63. *)
Definition of_size (n : nat) : float :=
  of_uint63 (Uint63.of_Z (Z.of_nat n)).

End Double.

(** [a + b] on [int] (32 bits): a signed overflow is undefined behaviour,
    which is [None]. *)
Definition int_add (a b : Z) : option Z :=
  let s := (a + b)%Z in
  if ((- 2 ^ 31 <=? s) && (s <? 2 ^ 31))%Z then Some s else None.

(** [static_cast<size_t>(i)] of an [int] on a 64-bit target. *)
Definition size_t_of_int (i : Z) : Z := (i mod 2 ^ 64)%Z.

(** ** Data *)

(** Modelled from the spec: the declaration of [Match] (match.hpp) is not
    part of the sources; a correspondence is a pair of 2D points [(x1,y1)]
    in image 1 and [(x2,y2)] in image 2. *)
Record Match := mkMatch { x1 : float; y1 : float; x2 : float; y2 : float }.

(** A 3x3 [matrix<double>], stored by rows. *)
Record Model := mkModel {
  F00 : float; F01 : float; F02 : float;
  F10 : float; F11 : float; F12 : float;
  F20 : float; F21 : float; F22 : float }.

(** Element access [F(i,j)]. *)
Definition at_ (F : Model) (i j : nat) : float :=
  match i, j with
  | 0, 0 => F00 F | 0, 1 => F01 F | 0, _ => F02 F
  | 1, 0 => F10 F | 1, 1 => F11 F | 1, _ => F12 F
  | _, 0 => F20 F | _, 1 => F21 F | _, _ => F22 F
  end%nat.

(** What the functions write on [std::cout] and [std::cerr], together with
    the calls they make to the two consensus engines. *)
Inductive event :=
| AverageMax (rms linf : float)      (* cout: "Average/max error: rms/linf" *)
| BeforeRefinement                   (* cout: "Before refinement: " *)
| AfterRefinement                    (* cout: "After  refinement: " *)
| WarnTooLarge                       (* cerr: error after refinement is too large *)
| WarnSuspect                        (* cerr: error in refinement *)
| ErrRansacNeeds (n : Z)             (* cerr: RANSAC needs n matches or more *)
| ErrOrsaNeeds (n : Z)               (* cerr: ORSA needs n matches or more *)
| Iterations (n : Z)                 (* cout: "Iterations: n" *)
| RansacRun                          (* call of Ransac::run *)
| OrsaRun (alpha0Left alpha0Right : float). (* call of Orsa::run on Orsa(model,l,r) *)

Definition is_warning (e : event) : bool :=
  match e with WarnTooLarge | WarnSuspect => true | _ => false end.

Definition is_engine_run (e : event) : bool :=
  match e with RansacRun | OrsaRun _ _ => true | _ => false end.

Definition is_refinement (e : event) : bool :=
  match e with BeforeRefinement | AfterRefinement => true | _ => false end.

(** ** Computations

    A computation either runs into undefined behaviour (an out-of-range
    [operator[]]), which is [None], or yields a value and the output it
    produced. *)
Definition comp (A : Type) : Type := option (A * list event).

Definition ret {A} (a : A) : comp A := Some (a, []).

Definition bind {A B} (m : comp A) (f : A -> comp B) : comp B :=
  match m with
  | None => None
  | Some (a, t1) =>
      match f a with
      | None => None
      | Some (b, t2) => Some (b, t1 ++ t2)
      end
  end.

Definition emit (e : event) : comp unit := Some (tt, [e]).

Notation "x <- m ;; k" := (bind m (fun x => k))
  (at level 61, m at next level, right associativity).
Notation "m ;;; k" := (bind m (fun _ => k))
  (at level 61, right associativity).

(** ** [display_stats] *)

(** [match[i]] for an [int] index [i]. *)
Definition match_at (match_ : list Match) (i : Z) : option Match :=
  if (i <? 0)%Z then None else nth_error match_ (Z.to_nat i).

(** The body of the loop for one inlier: the squared distance [e]. *)
Definition inlier_error (F : Model) (m : Match) : float :=
  let a := at_ F 0 0 * x1 m + at_ F 1 0 * y1 m + at_ F 2 0 in
  let b := at_ F 0 1 * x1 m + at_ F 1 1 * y1 m + at_ F 2 1 in
  let c := at_ F 0 2 * x1 m + at_ F 1 2 * y1 m + at_ F 2 2 in
  let d := a * x2 m + b * y2 m + c in
  (d * d) / (a * a + b * b).

(** One turn of the loop on the accumulators [(l2, linf)]. *)
Definition stats_step (F : Model) (acc : float * float) (m : Match)
  : float * float :=
  let '(l2, linf) := acc in
  let e := inlier_error F m in
  let l2 := l2 + e in
  let linf := if linf <? e then e else linf in
  (l2, linf).

(** The loop [for(; it!=in.end(); ++it)]. *)
Fixpoint stats_loop (match_ : list Match) (F : Model) (acc : float * float)
  (in_ : list Z) : option (float * float) :=
  match in_ with
  | [] => Some acc
  | i :: rest =>
      match match_at match_ i with
      | None => None
      | Some m => stats_loop match_ F (stats_step F acc m) rest
      end
  end.

Definition display_stats (match_ : list Match) (in_ : list Z) (F : Model)
  : comp (float * float) :=
  match stats_loop match_ F (0, 0) in_ with
  | None => None
  | Some (l2, linf) =>
      let err := (sqrt (l2 / Double.of_size (length in_)), sqrt linf) in
      emit (AverageMax (fst err) (snd err)) ;;;
      ret err
  end.

(** ** The model estimator and the engines *)

(** The part of the abstract class [ModelEstimator] this file uses. *)
Record ModelEstimator := mkEstimator {
  SizeSample : Z;
  ComputeModel : list Z -> option Model }.

Section Orsa.

(** The constructor of [FundamentalModel] (fundamental_model.hpp), from the
    2xn matrices of the points of both images, given by columns. *)
Variable FundamentalModel :
  list (float * float) -> Z -> Z -> list (float * float) -> Z -> Z -> bool ->
  ModelEstimator.

(** [Ransac(model).run(vec_inliers, precision, nbIterMax, &H, beta, verbose)]
    (ransac.hpp): the number of iterations, and the new contents of
    [vec_inliers] and [H].  The engines draw their samples themselves; the
    variable stands for what one run gives, and what the engines print is
    left out of the output. *)
Variable Ransac_run :
  ModelEstimator -> list Z -> float -> Z -> Model -> float -> bool ->
  Z * list Z * Model.

(** [Orsa(model,alpha0Left,alpha0Right).run(vec_inliers, nbIter, &precision,
    &F, verbose)] (orsa.hpp): the returned log10 of the NFA, and the new
    contents of [vec_inliers], [precision] and [F]. *)
Variable Orsa_run :
  ModelEstimator -> float -> float -> list Z -> Z -> float -> Model -> bool ->
  float * list Z * float * Model.

Definition build_model (vec_matchings : list Match) (w1 h1 w2 h2 : Z)
  : ModelEstimator :=
  let xA := map (fun m => (x1 m, y1 m)) vec_matchings in
  let xB := map (fun m => (x2 m, y2 m)) vec_matchings in
  FundamentalModel xA w1 h1 xB w2 h2 true.

(** [refine] returns the contents of [*M] when it ends. *)
Definition refine (model : ModelEstimator) (vec_matchings : list Match)
  (vec_inliers : list Z) (M : Model) : comp Model :=
  emit BeforeRefinement ;;;
  err <- display_stats vec_matchings vec_inliers M ;;
  match ComputeModel model vec_inliers with
  | Some M2 =>
      emit AfterRefinement ;;;
      let maxBefore := snd err in
      err2 <- display_stats vec_matchings vec_inliers M2 ;;
      if fst err2 <=? maxBefore then ret M2
      else emit WarnTooLarge ;;; ret M
  | None => emit WarnSuspect ;;; ret M
  end.

(** The value returned and the contents of the two output parameters
    [H] and [vec_inliers] when the function returns. *)
Definition ransac_fundamental (vec_matchings : list Match)
  (w1 h1 w2 h2 : Z) (precision : float) (nbIterMax : Z) (beta : float)
  (H : Model) (vec_inliers : list Z) : comp (bool * Model * list Z) :=
  let model := build_model vec_matchings w1 h1 w2 h2 in
  let ok := (size_t_of_int (SizeSample model) <=?
             Z.of_nat (length vec_matchings))%Z in
  st <- (if negb ok then
           emit (ErrRansacNeeds (SizeSample model)) ;;;
           ret (H, vec_inliers)
         else
           emit RansacRun ;;;
           let '(nbIterMax, vec_inliers, H) :=
             Ransac_run model vec_inliers precision nbIterMax H beta true in
           emit (Iterations nbIterMax) ;;;
           H <- refine model vec_matchings vec_inliers H ;;
           ret (H, vec_inliers)) ;;
  let '(H, vec_inliers) := st in
  ret (ok, H, vec_inliers).

(** The value returned and the contents of the output parameters [F] and
    [vec_inliers] when the function returns.  [precision] is a parameter
    passed by value: the function works on its own copy, which is gone
    when it returns.  The block before [delete model] ends with the values
    of [ok], [F] and [vec_inliers]; the last line returns [true]. *)
Definition orsa_fundamental (vec_matchings : list Match)
  (w1 h1 w2 h2 : Z) (precision : float) (nbIter : Z)
  (F : Model) (vec_inliers : list Z) : comp (bool * Model * list Z) :=
  let model := build_model vec_matchings w1 h1 w2 h2 in
  let ok := (size_t_of_int (SizeSample model) <?
             Z.of_nat (length vec_matchings))%Z in
  st <- (if negb ok then
           match int_add (SizeSample model) 1 with
           | Some needed =>
               emit (ErrOrsaNeeds needed) ;;;
               ret (ok, F, vec_inliers)
           | None => None
           end
         else
           let D := sqrt (Double.of_int w1 * Double.of_int w1
                          + Double.of_int h1 * Double.of_int h1) in
           let A := Double.of_int w1 * Double.of_int h1 in
           let alpha0Left := 2 * D / A in
           let D := sqrt (Double.of_int w2 * Double.of_int w2
                          + Double.of_int h2 * Double.of_int h2) in
           let A := Double.of_int w2 * Double.of_int h2 in
           let alpha0Right := 2 * D / A in
           emit (OrsaRun alpha0Left alpha0Right) ;;;
           let '(nfa, vec_inliers, precision, F) :=
             Orsa_run model alpha0Left alpha0Right vec_inliers nbIter
                      precision F true in
           if 0 <? nfa then
             let ok := false in
             ret (ok, F, vec_inliers)
           else
             F <- refine model vec_matchings vec_inliers F ;;
             ret (ok, F, vec_inliers)) ;;
  let '(ok, F, vec_inliers) := st in
  ret (true, F, vec_inliers).

End Orsa.

(** ** The statements of the specification, in its own words *)

(** Following the spec's words: the diagonal and the area of a [w] x [h]
    image, and [alpha0 = 2 * diagonal / area]. *)
Definition diagonal (w h : Z) : float :=
  sqrt (Double.of_int w * Double.of_int w + Double.of_int h * Double.of_int h).

Definition area (w h : Z) : float := Double.of_int w * Double.of_int h.

Definition alpha0 (w h : Z) : float := 2 * diagonal w h / area w h.

(** Following the spec's words: the epipolar line [(a,b,c)] induced in image 2
    by the point [(x,y)] of image 1 under [F], that is the product of the
    transpose of [F] with [(x,y,1)] (a product by 1 is exact and is not
    written). *)
Definition epipolar_line (F : Model) (x y : float) : float * float * float :=
  (at_ F 0 0 * x + at_ F 1 0 * y + at_ F 2 0,
   at_ F 0 1 * x + at_ F 1 1 * y + at_ F 2 1,
   at_ F 0 2 * x + at_ F 1 2 * y + at_ F 2 2).

(** Following the spec's words: the squared distance [d^2/(a^2+b^2)] of the
    point [(x,y)] to the line [(a,b,c)]. *)
Definition sq_dist_to_line (l : float * float * float) (x y : float) : float :=
  let '(a, b, c) := l in
  let d := a * x + b * y + c in
  (d * d) / (a * a + b * b).

(** [e_i] of the inliers, in the order of the index list; [None] when an
    index is not one of a correspondence. *)
Fixpoint inlier_errors (match_ : list Match) (in_ : list Z) (F : Model)
  : option (list float) :=
  match in_ with
  | [] => Some []
  | i :: rest =>
      match match_at match_ i, inlier_errors match_ rest F with
      | Some m, Some es =>
          Some (sq_dist_to_line (epipolar_line F (x1 m) (y1 m)) (x2 m) (y2 m)
                :: es)
      | _, _ => None
      end
  end.

Definition sum (es : list float) : float := fold_left add es 0.

Definition mean (es : list float) : float :=
  sum es / Double.of_size (length es).

(** [m] is the maximum of [es]: one of them, and none is above it. *)
Definition is_maximum (es : list float) (m : float) : Prop :=
  In m es /\ forall e, In e es -> (e <=? m) = true.

(** The pair the error statistics are said to be: [(sqrt mean, sqrt max)]. *)
Definition rms_max_of (es : list float) (r : float * float) : Prop :=
  fst r = sqrt (mean es) /\ exists m, is_maximum es m /\ snd r = sqrt m.

(** Every index of [in_] is one of a correspondence of [match_]. *)
Definition valid_inliers (match_ : list Match) (in_ : list Z) : Prop :=
  Forall (fun i => (0 <= i < Z.of_nat (length match_))%Z) in_.

(** A refinement was accepted when no warning was written. *)
Definition accepted (tr : list event) : bool := negb (existsb is_warning tr).

(** ** Classes of binary64 numbers *)

(** A number with its sign bit clear: [+0], a positive number or [+oo]. *)
Definition nonneg (x : spec_float) : bool :=
  match x with
  | S754_zero false | S754_infinity false | S754_finite false _ _ => true
  | _ => false
  end.

Definition nonneg_or_nan (x : spec_float) : bool :=
  match x with S754_nan => true | _ => nonneg x end.

Definition inf_or_nan (x : spec_float) : bool :=
  match x with S754_nan | S754_infinity false => true | _ => false end.

(** The update of [linf] in the loop of [display_stats]. *)
Definition fmax_step (linf e : float) : float := if linf <? e then e else linf.

(** A NaN or an infinity of either sign. *)
Definition not_finite (x : spec_float) : bool :=
  match x with S754_nan | S754_infinity _ => true | _ => false end.

(** The entries of a list that are numbers. *)
Definition numbers (es : list float) : list float :=
  filter (fun e => negb (is_nan e)) es.

(** An inlier whose line has a normal of finite, nonzero squared length and
    whose [d] is not a NaN. *)
Definition regular (F : Model) (m : Match) : bool :=
  let '(a, b, c) := epipolar_line F (x1 m) (y1 m) in
  let d := a * x2 m + b * y2 m + c in
  negb (is_nan d) && (0 <? a * a + b * b)
  && negb (is_infinity (a * a + b * b)).

(** ** Stand-ins for the collaborators that are not in this file, used to
    run the functions on concrete inputs *)

Module Stub.

Definition zeroM : Model := mkModel 0 0 0 0 0 0 0 0 0.

(** A fundamental matrix of a horizontal translation: the epipolar line
    of [(x,y)] is the horizontal line through [y]. *)
Definition transM : Model := mkModel 0 0 0 0 0 (-1) 0 1 0.

(** The same with the epipolar lines one pixel off. *)
Definition shiftM : Model := mkModel 0 0 0 0 0 (-1) 0 1 1.

(** A fundamental matrix of a forward translation: the epipole of both
    images is the origin. *)
Definition forwardM : Model := mkModel 0 (-1) 0 1 0 0 0 0 0.

(** An estimator with sample size 7 whose least-squares fit gives [M]. *)
Definition estimator (M : option Model) : ModelEstimator :=
  mkEstimator 7 (fun _ => M).

Definition FundamentalModel (M : option Model)
  (xA : list (float * float)) (w1 h1 : Z) (xB : list (float * float))
  (w2 h2 : Z) (b : bool) : ModelEstimator := estimator M.

(** A run of RANSAC that made [n] iterations and found [inl] and [M]. *)
Definition Ransac_run (n : Z) (inl : list Z) (M : Model)
  (model : ModelEstimator) (vec_inliers : list Z) (precision : float)
  (nbIterMax : Z) (H : Model) (beta : float) (verbose : bool)
  : Z * list Z * Model := (n, inl, M).

(** A run of ORSA that found [inl], [M] and the threshold [t], of
    log-NFA [nfa]. *)
Definition Orsa_run (nfa : float) (inl : list Z) (t : float) (M : Model)
  (model : ModelEstimator) (alpha0Left alpha0Right : float)
  (vec_inliers : list Z) (nbIter : Z) (precision : float) (F : Model)
  (verbose : bool) : float * list Z * float * Model := (nfa, inl, t, M).

(** Eight correspondences on horizontal lines, the last one off by 1. *)
Definition matches8 : list Match :=
  [ mkMatch 0 0 1 0; mkMatch 1 1 2 1; mkMatch 2 2 3 2; mkMatch 3 3 4 3;
    mkMatch 4 4 5 4; mkMatch 5 5 6 5; mkMatch 6 6 7 6; mkMatch 7 7 8 8 ].

End Stub.

(** ** Basic facts on computations and on [display_stats] *)

Lemma match_at_valid (match_ : list Match) (i : Z) :
  (0 <= i < Z.of_nat (length match_))%Z ->
  exists m, match_at match_ i = Some m.
Proof.
  intros Hi. unfold match_at.
  destruct (Z.ltb_spec i 0) as [Hneg | _]; [lia |].
  destruct (nth_error match_ (Z.to_nat i)) as [m |] eqn:Hnth.
  - now exists m.
  - apply nth_error_None in Hnth. lia.
Qed.

Lemma stats_loop_defined (match_ : list Match) (F : Model) (in_ : list Z) :
  valid_inliers match_ in_ ->
  forall acc, exists r, stats_loop match_ F acc in_ = Some r.
Proof.
  induction 1 as [| i rest Hi _ IH]; intros acc; simpl.
  - now exists acc.
  - destruct (match_at_valid _ _ Hi) as [m ->]. apply IH.
Qed.

Lemma display_stats_defined (match_ : list Match) (in_ : list Z) (F : Model) :
  valid_inliers match_ in_ ->
  exists err,
    display_stats match_ in_ F = Some (err, [AverageMax (fst err) (snd err)]).
Proof.
  intros Hv. unfold display_stats.
  destruct (stats_loop_defined match_ F in_ Hv (0, 0)) as [[l2 linf] ->].
  eexists. reflexivity.
Qed.

Lemma display_stats_trace (match_ : list Match) (in_ : list Z) (F : Model)
  (err : float * float) (tr : list event) :
  display_stats match_ in_ F = Some (err, tr) ->
  tr = [AverageMax (fst err) (snd err)].
Proof.
  unfold display_stats.
  destruct (stats_loop match_ F (0, 0) in_) as [[l2 linf] |]; [| discriminate].
  simpl. intros [= <- <-]. reflexivity.
Qed.

(** What [refine] does in each of its three branches. *)
Lemma refine_cases (model : ModelEstimator) (vec_matchings : list Match)
  (vec_inliers : list Z) (M : Model) (err : float * float) (t : list event) :
  display_stats vec_matchings vec_inliers M = Some (err, t) ->
  match ComputeModel model vec_inliers with
  | None =>
      refine model vec_matchings vec_inliers M =
      Some (M, [BeforeRefinement; AverageMax (fst err) (snd err); WarnSuspect])
  | Some M2 =>
      forall err2 t2,
        display_stats vec_matchings vec_inliers M2 = Some (err2, t2) ->
        refine model vec_matchings vec_inliers M =
        Some (if fst err2 <=? snd err then M2 else M,
              [BeforeRefinement; AverageMax (fst err) (snd err);
               AfterRefinement; AverageMax (fst err2) (snd err2)]
              ++ (if fst err2 <=? snd err then [] else [WarnTooLarge]))
  end.
Proof.
  intros H1. pose proof (display_stats_trace _ _ _ _ _ H1) as ->.
  unfold refine. rewrite H1.
  destruct (ComputeModel model vec_inliers) as [M2 |]; [| reflexivity].
  intros err2 t2 H2. pose proof (display_stats_trace _ _ _ _ _ H2) as ->.
  simpl. rewrite H2. simpl.
  destruct (fst err2 <=? snd err); reflexivity.
Qed.

Lemma refine_defined (model : ModelEstimator) (vec_matchings : list Match)
  (vec_inliers : list Z) (M : Model) :
  valid_inliers vec_matchings vec_inliers ->
  exists M' tr, refine model vec_matchings vec_inliers M = Some (M', tr).
Proof.
  intros Hv.
  destruct (display_stats_defined _ _ M Hv) as [err H1].
  pose proof (refine_cases model _ _ _ _ _ H1) as Hc.
  destruct (ComputeModel model vec_inliers) as [M2 |].
  - destruct (display_stats_defined _ _ M2 Hv) as [err2 H2].
    rewrite (Hc _ _ H2). eauto.
  - rewrite Hc. eauto.
Qed.

Lemma size_t_of_int_small (s : Z) :
  (0 <= s < 2 ^ 64)%Z -> size_t_of_int s = s.
Proof. intros Hs. unfold size_t_of_int. now apply Z.mod_small. Qed.

(** ** Facts on binary64 arithmetic *)

Lemma binary_round_aux_nonneg (m e : Z) (l : location) :
  nonneg_or_nan (binary_round_aux prec emax false m e l) = true.
Proof.
  unfold binary_round_aux.
  destruct (shr_fexp prec emax m e l) as [mrs' e'].
  destruct (shr_fexp prec emax _ e' loc_Exact) as [mrs'' e''].
  destruct (shr_m mrs''); [reflexivity | | reflexivity].
  destruct (Z.leb e'' _); reflexivity.
Qed.

Lemma binary_round_nonneg (m : positive) (e : Z) :
  nonneg_or_nan (binary_round prec emax false m e) = true.
Proof.
  unfold binary_round. destruct (shl_align m e _) as [mz ez].
  apply binary_round_aux_nonneg.
Qed.

Lemma SFmul_self_nonneg (x : spec_float) :
  nonneg_or_nan (SF64mul x x) = true.
Proof.
  destruct x as [[|] | [|] | | [|] m e]; try reflexivity;
    apply binary_round_aux_nonneg.
Qed.

Lemma SFadd_nonneg (x y : spec_float) :
  nonneg_or_nan x = true -> nonneg_or_nan y = true ->
  nonneg_or_nan (SF64add x y) = true.
Proof.
  destruct x as [[|] | [|] | | [|] mx ex]; try discriminate;
    destruct y as [[|] | [|] | | [|] my ey]; try discriminate;
    try reflexivity.
  intros _ _. unfold SF64add, SFadd. simpl cond_Zopp.
  destruct (shl_align mx ex _) as [ma ea], (shl_align my ey _) as [mb eb].
  simpl. apply binary_round_nonneg.
Qed.

Lemma SFdiv_nonneg (x y : spec_float) :
  nonneg_or_nan x = true -> nonneg_or_nan y = true ->
  nonneg_or_nan (SF64div x y) = true.
Proof.
  destruct x as [[|] | [|] | | [|] mx ex]; try discriminate;
    destruct y as [[|] | [|] | | [|] my ey]; try discriminate;
    try reflexivity.
  intros _ _. unfold SF64div, SFdiv.
  destruct (SFdiv_core_binary _ _ _ _ _ _) as [[mz ez] lz].
  apply binary_round_aux_nonneg.
Qed.

Lemma SFadd_inf_l (x y : spec_float) :
  inf_or_nan x = true -> nonneg_or_nan y = true ->
  inf_or_nan (SF64add x y) = true.
Proof.
  destruct x as [[|] | [|] | | [|] mx ex]; try discriminate;
    destruct y as [[|] | [|] | | [|] my ey]; try discriminate; reflexivity.
Qed.

Lemma SFadd_inf_r (x y : spec_float) :
  nonneg_or_nan x = true -> inf_or_nan y = true ->
  inf_or_nan (SF64add x y) = true.
Proof.
  destruct x as [[|] | [|] | | [|] mx ex]; try discriminate;
    destruct y as [[|] | [|] | | [|] my ey]; try discriminate; reflexivity.
Qed.

Lemma SFdiv_inf (x y : spec_float) :
  inf_or_nan x = true -> nonneg_or_nan y = true ->
  inf_or_nan (SF64div x y) = true.
Proof.
  destruct x as [[|] | [|] | | [|] mx ex]; try discriminate;
    destruct y as [[|] | [|] | | [|] my ey]; try discriminate; reflexivity.
Qed.

Lemma SFdiv_by_zero (x : spec_float) :
  nonneg_or_nan x = true ->
  inf_or_nan (SF64div x (S754_zero false)) = true.
Proof.
  destruct x as [[|] | [|] | | [|] mx ex]; try discriminate; reflexivity.
Qed.

Lemma SFsqrt_inf (x : spec_float) :
  inf_or_nan x = true -> inf_or_nan (SF64sqrt x) = true.
Proof.
  destruct x as [[|] | [|] | | [|] mx ex]; try discriminate; reflexivity.
Qed.

(** The order on the numbers with their sign bit clear. *)

Lemma SFleb_refl (x : spec_float) : nonneg x = true -> SFleb x x = true.
Proof.
  destruct x as [[|] | [|] | | [|] m e]; try discriminate; try reflexivity.
  intros _. unfold SFleb, SFcompare.
  rewrite Z.compare_refl. change (Pos.compare_cont Eq m m) with (m ?= m)%positive.
  now rewrite Pos.compare_refl.
Qed.

Lemma SFleb_total (x y : spec_float) :
  nonneg x = true -> nonneg y = true ->
  SFltb x y = false -> SFleb y x = true.
Proof.
  destruct x as [[|] | [|] | | [|] mx ex]; try discriminate;
    destruct y as [[|] | [|] | | [|] my ey]; try discriminate;
    try reflexivity; try discriminate.
  intros _ _. unfold SFltb, SFleb, SFcompare.
  change (Pos.compare_cont Eq mx my) with (mx ?= my)%positive.
  change (Pos.compare_cont Eq my mx) with (my ?= mx)%positive.
  rewrite (Z.compare_antisym ex ey), (Pos.compare_antisym mx my).
  destruct (ex ?= ey)%Z; simpl; try discriminate; try reflexivity.
  destruct (mx ?= my)%positive; simpl; try discriminate; reflexivity.
Qed.

Lemma SFleb_ltb_trans (x y z : spec_float) :
  nonneg x = true -> nonneg y = true -> nonneg z = true ->
  SFleb x y = true -> SFltb y z = true -> SFleb x z = true.
Proof.
  destruct x as [[|] | [|] | | [|] mx ex]; try discriminate;
    destruct y as [[|] | [|] | | [|] my ey]; try discriminate;
    destruct z as [[|] | [|] | | [|] mz ez]; try discriminate;
    try reflexivity; try discriminate.
  intros _ _ _. unfold SFltb, SFleb, SFcompare.
  change (Pos.compare_cont Eq mx my) with (mx ?= my)%positive.
  change (Pos.compare_cont Eq my mz) with (my ?= mz)%positive.
  change (Pos.compare_cont Eq mx mz) with (mx ?= mz)%positive.
  destruct (Z.compare_spec ex ey), (Z.compare_spec ey ez),
    (Z.compare_spec ex ez); try lia; try discriminate; try reflexivity;
    destruct (Pos.compare_spec mx my), (Pos.compare_spec my mz),
      (Pos.compare_spec mx mz); try lia; try discriminate; reflexivity.
Qed.

Lemma SFltb_zero (x : spec_float) :
  nonneg x = true -> SFltb (S754_zero false) x = false ->
  x = S754_zero false.
Proof.
  destruct x as [[|] | [|] | | [|] m e]; try discriminate; reflexivity.
Qed.

Lemma refine_warning_keeps (model : ModelEstimator)
  (vec_matchings : list Match) (vec_inliers : list Z) (M M' : Model)
  (tr : list event) :
  refine model vec_matchings vec_inliers M = Some (M', tr) ->
  accepted tr = false -> M' = M.
Proof.
  intros Hr Hacc.
  destruct (display_stats vec_matchings vec_inliers M) as [[err t] |] eqn:H1.
  - pose proof (refine_cases model _ _ _ _ _ H1) as Hc.
    destruct (ComputeModel model vec_inliers) as [M2 |] eqn:HCM.
    + destruct (display_stats vec_matchings vec_inliers M2)
        as [[err2 t2] |] eqn:H2.
      * rewrite (Hc _ _ eq_refl) in Hr. injection Hr as <- <-.
        destruct (fst err2 <=? snd err); [discriminate Hacc | reflexivity].
      * unfold refine in Hr. rewrite H1, HCM in Hr. simpl in Hr.
        rewrite H2 in Hr. discriminate Hr.
    + rewrite Hc in Hr. now injection Hr as <- <-.
  - unfold refine in Hr. rewrite H1 in Hr. discriminate Hr.
Qed.

(** ** The errors of the inliers have their sign bit clear, or are NaN *)

Lemma Prim2SF_not_nan (x : float) :
  is_nan x = false -> Prim2SF x <> S754_nan.
Proof.
  intros Hx. unfold Prim2SF. rewrite Hx.
  destruct (is_zero x); [discriminate |].
  destruct (is_infinity x); [discriminate |].
  destruct (Z.frexp x) as [r ex].
  destruct (shr_fexp _ _ _ _ _) as [shr e'].
  destruct (shr_m shr); discriminate.
Qed.

Lemma nonneg_of_not_nan (x : float) :
  nonneg_or_nan (Prim2SF x) = true -> is_nan x = false ->
  nonneg (Prim2SF x) = true.
Proof.
  intros Hx Hn. apply Prim2SF_not_nan in Hn.
  destruct (Prim2SF x); [exact Hx | exact Hx | congruence | exact Hx].
Qed.

Lemma inf_or_nan_not_finite (x : float) :
  inf_or_nan (Prim2SF x) = true -> is_nan x || is_infinity x = true.
Proof.
  intros Hx.
  destruct (Prim2SF x) as [s | [|] | | s m e] eqn:Hp; try discriminate Hx.
  - now rewrite (Prim2SF_inj x infinity Hp).
  - now rewrite (Prim2SF_inj x nan Hp).
Qed.

Lemma square_nonneg (d : float) : nonneg_or_nan (Prim2SF (d * d)) = true.
Proof. rewrite mul_spec. apply SFmul_self_nonneg. Qed.

Lemma inlier_error_nonneg (F : Model) (m : Match) :
  nonneg_or_nan (Prim2SF (inlier_error F m)) = true.
Proof.
  unfold inlier_error. rewrite div_spec.
  apply SFdiv_nonneg; [apply square_nonneg |].
  rewrite add_spec. apply SFadd_nonneg; apply square_nonneg.
Qed.

Lemma of_size_nonneg (n : nat) :
  nonneg_or_nan (Prim2SF (Double.of_size n)) = true.
Proof.
  unfold Double.of_size. rewrite of_uint63_spec.
  pose proof (Uint63.to_Z_bounded (Uint63.of_Z (Z.of_nat n))) as [Hge _].
  destruct (Uint63.to_Z (Uint63.of_Z (Z.of_nat n))) as [| p | p];
    [reflexivity | apply binary_round_nonneg | lia].
Qed.

(** A zero of either sign. *)
Lemma eqb_zero (a : float) :
  (a =? 0) = true -> exists s, Prim2SF a = S754_zero s.
Proof.
  rewrite eqb_spec. change (Prim2SF 0) with (S754_zero false).
  destruct (Prim2SF a) as [s | [|] | | [|] m e]; try discriminate.
  intros _. now exists s.
Qed.

Lemma zero_normal (a b : float) :
  (a =? 0) = true -> (b =? 0) = true ->
  Prim2SF (a * a + b * b) = S754_zero false.
Proof.
  intros Ha Hb. apply eqb_zero in Ha, Hb. destruct Ha as [sa Ha], Hb as [sb Hb].
  rewrite add_spec, !mul_spec, Ha, Hb. now destruct sa, sb.
Qed.

(** ** The loop of [display_stats] *)

Lemma inlier_errors_length (match_ : list Match) (F : Model) :
  forall in_ es, inlier_errors match_ in_ F = Some es -> length es = length in_.
Proof.
  induction in_ as [| i rest IH]; simpl; intros es.
  - now intros [= <-].
  - destruct (match_at match_ i) as [m |]; [| discriminate].
    destruct (inlier_errors match_ rest F) as [es' |]; [| discriminate].
    intros [= <-]. simpl. now rewrite (IH es').
Qed.

Lemma inlier_errors_nonneg (match_ : list Match) (F : Model) :
  forall in_ es, inlier_errors match_ in_ F = Some es ->
  Forall (fun e => nonneg_or_nan (Prim2SF e) = true) es.
Proof.
  induction in_ as [| i rest IH]; simpl; intros es.
  - intros [= <-]. constructor.
  - destruct (match_at match_ i) as [m |]; [| discriminate].
    destruct (inlier_errors match_ rest F) as [es' |]; [| discriminate].
    intros [= <-]. constructor; [apply (inlier_error_nonneg F m) | now apply IH].
Qed.

(** The loop computes the sum and the running maximum of the errors. *)
Lemma stats_loop_folds (match_ : list Match) (F : Model) :
  forall in_ es l2 linf,
    inlier_errors match_ in_ F = Some es ->
    stats_loop match_ F (l2, linf) in_
    = Some (fold_left add es l2, fold_left fmax_step es linf).
Proof.
  induction in_ as [| i rest IH]; simpl; intros es l2 linf.
  - now intros [= <-].
  - destruct (match_at match_ i) as [m |]; [| discriminate].
    destruct (inlier_errors match_ rest F) as [es' |]; [| discriminate].
    intros [= <-]. now rewrite (IH es').
Qed.

Lemma display_stats_folds (match_ : list Match) (in_ : list Z) (F : Model)
  (es : list float) :
  inlier_errors match_ in_ F = Some es ->
  display_stats match_ in_ F
  = Some ((sqrt (mean es), sqrt (fold_left fmax_step es 0)),
          [AverageMax (sqrt (mean es)) (sqrt (fold_left fmax_step es 0))]).
Proof.
  intros He. unfold display_stats, mean, sum.
  rewrite (stats_loop_folds _ _ _ _ _ _ He), (inlier_errors_length _ _ _ _ He).
  reflexivity.
Qed.

(** ** The running maximum *)

Lemma leb_refl (x : float) : nonneg (Prim2SF x) = true -> (x <=? x) = true.
Proof. rewrite leb_spec. apply SFleb_refl. Qed.

Lemma fmax_step_first (e : float) :
  nonneg (Prim2SF e) = true -> fmax_step 0 e = e.
Proof.
  intros He. unfold fmax_step. destruct (0 <? e) eqn:Hlt; [reflexivity |].
  rewrite ltb_spec in Hlt. symmetry. apply Prim2SF_inj.
  exact (SFltb_zero _ He Hlt).
Qed.

Lemma fmax_step_maximum (seen : list float) (m e : float) :
  Forall (fun x => nonneg (Prim2SF x) = true) seen ->
  nonneg (Prim2SF e) = true ->
  is_maximum seen m -> is_maximum (seen ++ [e]) (fmax_step m e).
Proof.
  intros Hseen He [Hin Hmax].
  assert (Hm : nonneg (Prim2SF m) = true)
    by (rewrite Forall_forall in Hseen; now apply Hseen).
  unfold fmax_step. destruct (m <? e) eqn:Hlt; split.
  - apply in_or_app. right. now left.
  - intros x Hx. apply in_app_or in Hx. destruct Hx as [Hx | [<- | []]].
    + rewrite leb_spec. rewrite ltb_spec in Hlt.
      apply (SFleb_ltb_trans _ (Prim2SF m)); try assumption.
      * rewrite Forall_forall in Hseen. now apply Hseen.
      * rewrite <- leb_spec. now apply Hmax.
    + now apply leb_refl.
  - apply in_or_app. now left.
  - intros x Hx. apply in_app_or in Hx. destruct Hx as [Hx | [<- | []]].
    + now apply Hmax.
    + rewrite leb_spec. rewrite ltb_spec in Hlt. now apply SFleb_total.
Qed.

Lemma fold_fmax_maximum (es : list float) :
  forall seen m,
    Forall (fun x => nonneg (Prim2SF x) = true) (seen ++ es) ->
    is_maximum seen m ->
    is_maximum (seen ++ es) (fold_left fmax_step es m).
Proof.
  induction es as [| e es IH]; intros seen m Hall Hm; simpl.
  - now rewrite app_nil_r.
  - replace (seen ++ e :: es) with ((seen ++ [e]) ++ es) in *
      by (now rewrite <- app_assoc).
    apply IH; [assumption |].
    apply Forall_app in Hall. destruct Hall as [Hall _].
    apply Forall_app in Hall. destruct Hall as [Hseen He].
    apply fmax_step_maximum; try assumption. now inversion He.
Qed.

Lemma running_maximum (es : list float) :
  es <> [] ->
  Forall (fun x => nonneg (Prim2SF x) = true) es ->
  is_maximum es (fold_left fmax_step es 0).
Proof.
  destruct es as [| e es]; [congruence |]. intros _ Hall. simpl.
  rewrite (fmax_step_first e) by (now inversion Hall).
  apply (fold_fmax_maximum es [e] e Hall).
  split; [now left |]. intros x [<- | []].
  apply leb_refl. now inversion Hall.
Qed.

(** A list with a NaN has no maximum: the hypothesis of
    [running_maximum] cannot be dropped. *)
Lemma is_nan_Prim2SF (x : float) : is_nan x = true -> Prim2SF x = S754_nan.
Proof. intros Hx. unfold Prim2SF. now rewrite Hx. Qed.

Lemma maximum_not_nan (es : list float) (m : float) :
  is_maximum es m -> Forall (fun e => is_nan e = false) es.
Proof.
  intros [_ Hmax]. rewrite Forall_forall. intros e Hin.
  specialize (Hmax e Hin). rewrite leb_spec in Hmax.
  destruct (is_nan e) eqn:Hn; [| reflexivity].
  rewrite (is_nan_Prim2SF e Hn) in Hmax. discriminate Hmax.
Qed.

(** ** Sums that are not finite *)

Lemma inlier_errors_In (match_ : list Match) (F : Model) (i : Z) (m : Match) :
  forall in_ es,
    inlier_errors match_ in_ F = Some es ->
    In i in_ -> match_at match_ i = Some m ->
    In (inlier_error F m) es.
Proof.
  induction in_ as [| j rest IH]; simpl; intros es He Hin Hm; [contradiction |].
  destruct (match_at match_ j) as [mj |] eqn:Hj; [| discriminate].
  destruct (inlier_errors match_ rest F) as [es' |]; [| discriminate].
  injection He as <-. destruct Hin as [-> | Hin].
  - rewrite Hm in Hj. injection Hj as <-. now left.
  - right. now apply IH.
Qed.

Lemma sum_stays_inf (es : list float) :
  forall acc,
    Forall (fun e => nonneg_or_nan (Prim2SF e) = true) es ->
    inf_or_nan (Prim2SF acc) = true ->
    inf_or_nan (Prim2SF (fold_left add es acc)) = true.
Proof.
  induction es as [| e es IH]; intros acc Hall Hacc; simpl; [assumption |].
  inversion Hall as [| ? ? He Hes]; subst. apply IH; [assumption |].
  rewrite add_spec. now apply SFadd_inf_l.
Qed.

Lemma sum_becomes_inf (es : list float) (x : float) :
  forall acc,
    Forall (fun e => nonneg_or_nan (Prim2SF e) = true) es ->
    nonneg_or_nan (Prim2SF acc) = true ->
    In x es -> inf_or_nan (Prim2SF x) = true ->
    inf_or_nan (Prim2SF (fold_left add es acc)) = true.
Proof.
  induction es as [| e es IH]; intros acc Hall Hacc Hin Hx; [contradiction |].
  inversion Hall as [| ? ? He Hes]; subst. simpl. destruct Hin as [-> | Hin].
  - apply sum_stays_inf; [assumption |].
    rewrite add_spec. now apply SFadd_inf_r.
  - apply IH; try assumption. rewrite add_spec. now apply SFadd_nonneg.
Qed.

(** ** The paths of the entry operations *)

Section Paths.

Variable FM :
  list (float * float) -> Z -> Z -> list (float * float) -> Z -> Z -> bool ->
  ModelEstimator.
Variable RR :
  ModelEstimator -> list Z -> float -> Z -> Model -> float -> bool ->
  Z * list Z * Model.
Variable OR :
  ModelEstimator -> float -> float -> list Z -> Z -> float -> Model -> bool ->
  float * list Z * float * Model.
Variables (vec_matchings : list Match) (w1 h1 w2 h2 : Z).

Let model := build_model FM vec_matchings w1 h1 w2 h2.
Let n := Z.of_nat (length vec_matchings).

Lemma ransac_fundamental_few precision nbIterMax beta H vec_inliers :
  (n < size_t_of_int (SizeSample model))%Z ->
  ransac_fundamental FM RR vec_matchings w1 h1 w2 h2 precision nbIterMax beta
    H vec_inliers
  = Some ((false, H, vec_inliers), [ErrRansacNeeds (SizeSample model)]).
Proof.
  intros Hn. unfold ransac_fundamental. fold model. fold n.
  destruct (Z.leb_spec (size_t_of_int (SizeSample model)) n); [lia |].
  reflexivity.
Qed.

Lemma ransac_fundamental_enough precision nbIterMax beta H vec_inliers
  k inl H1 :
  (size_t_of_int (SizeSample model) <= n)%Z ->
  RR model vec_inliers precision nbIterMax H beta true = (k, inl, H1) ->
  ransac_fundamental FM RR vec_matchings w1 h1 w2 h2 precision nbIterMax beta
    H vec_inliers
  = match refine model vec_matchings inl H1 with
    | Some (H2, tr) =>
        Some ((true, H2, inl), RansacRun :: Iterations k :: tr)
    | None => None
    end.
Proof.
  intros Hn HRR. unfold ransac_fundamental. fold model. fold n.
  destruct (Z.leb_spec (size_t_of_int (SizeSample model)) n); [| lia].
  simpl negb. cbv iota. rewrite HRR.
  destruct (refine model vec_matchings inl H1) as [[H2 tr] |];
    simpl; [| reflexivity].
  now rewrite !app_nil_r.
Qed.

Lemma orsa_fundamental_few precision nbIter F vec_inliers :
  (n <= size_t_of_int (SizeSample model))%Z ->
  orsa_fundamental FM OR vec_matchings w1 h1 w2 h2 precision nbIter F
    vec_inliers
  = match int_add (SizeSample model) 1 with
    | Some needed => Some ((true, F, vec_inliers), [ErrOrsaNeeds needed])
    | None => None
    end.
Proof.
  intros Hn. unfold orsa_fundamental. fold model. fold n.
  destruct (Z.ltb_spec (size_t_of_int (SizeSample model)) n); [lia |].
  simpl negb. cbv iota. destruct (int_add (SizeSample model) 1); reflexivity.
Qed.

Lemma orsa_fundamental_enough precision nbIter F vec_inliers nfa inl p F1 :
  (size_t_of_int (SizeSample model) < n)%Z ->
  OR model (alpha0 w1 h1) (alpha0 w2 h2) vec_inliers nbIter precision F true
  = (nfa, inl, p, F1) ->
  orsa_fundamental FM OR vec_matchings w1 h1 w2 h2 precision nbIter F
    vec_inliers
  = if 0 <? nfa then
      Some ((true, F1, inl), [OrsaRun (alpha0 w1 h1) (alpha0 w2 h2)])
    else
      match refine model vec_matchings inl F1 with
      | Some (F2, tr) =>
          Some ((true, F2, inl),
                OrsaRun (alpha0 w1 h1) (alpha0 w2 h2) :: tr)
      | None => None
      end.
Proof.
  intros Hn HOR. unfold orsa_fundamental. fold model. fold n.
  destruct (Z.ltb_spec (size_t_of_int (SizeSample model)) n); [| lia].
  simpl negb. cbv iota.
  fold (diagonal w1 h1) (area w1 h1) (diagonal w2 h2) (area w2 h2).
  fold (alpha0 w1 h1) (alpha0 w2 h2). rewrite HOR.
  destruct (0 <? nfa); [reflexivity |].
  destruct (refine model vec_matchings inl F1) as [[F2 tr] |];
    simpl; [| reflexivity].
  now rewrite !app_nil_r.
Qed.

End Paths.

(** ** Runs on concrete data *)

(** Discharges the side conditions of a statement taken at concrete data. *)
Ltac concrete :=
  cbn; repeat (constructor || split); try lia; try reflexivity; try discriminate.

Example display_stats_example :
  display_stats Stub.matches8 [0; 1; 7]%Z Stub.transM
  = Some ((sqrt (1 / 3), 1), [AverageMax (sqrt (1 / 3)) 1]).
Proof. reflexivity. Qed.

Example alpha0_example : alpha0 640 480 = 2 * 800 / 307200.
Proof. reflexivity. Qed.

Example ransac_fundamental_example :
  ransac_fundamental (Stub.FundamentalModel (Some Stub.transM))
    (Stub.Ransac_run 3 [0; 1]%Z Stub.shiftM) Stub.matches8 640 480 640 480
    1 100 0.5 Stub.zeroM []
  = Some ((true, Stub.transM, [0; 1]%Z),
          [RansacRun; Iterations 3; BeforeRefinement; AverageMax 1 1;
           AfterRefinement; AverageMax 0 0]).
Proof. reflexivity. Qed.

Example orsa_fundamental_example :
  orsa_fundamental (Stub.FundamentalModel None)
    (Stub.Orsa_run (-1) [0; 1]%Z 0.5 Stub.shiftM) Stub.matches8
    640 480 640 480 1 100 Stub.zeroM []
  = Some ((true, Stub.shiftM, [0; 1]%Z),
          [OrsaRun (alpha0 640 480) (alpha0 640 480); BeforeRefinement;
           AverageMax 1 1; WarnSuspect]).
Proof. reflexivity. Qed.

(** ** The properties of the specification *)

Lemma orsa_fundamental_always_true
  FM OR (vec_matchings : list Match) (w1 h1 w2 h2 : Z) (precision : float)
  (nbIter : Z) (F : Model) (vec_inliers : list Z) ok F' inl' tr :
  orsa_fundamental FM OR vec_matchings w1 h1 w2 h2 precision nbIter F
    vec_inliers = Some ((ok, F', inl'), tr) ->
  ok = true.
Proof.
  unfold orsa_fundamental, bind at 1.
  match goal with |- context [match ?c with Some _ => _ | None => _ end] =>
    destruct c as [[[[ok0 F0] inl0] t0] |] end; simpl; congruence.
Qed.

(** C1: [orsa_fundamental] returns [true] where the status is to be [false]:
    with no correspondence at all, and with eight of them when the engine
    reports a positive log-NFA (no meaningful model). *)
Theorem orsa_fundamental_returns_true_on_failure :
  orsa_fundamental (Stub.FundamentalModel None)
    (Stub.Orsa_run 1 [] 1 Stub.zeroM) [] 640 480 640 480 1 100
    Stub.zeroM []
  = Some ((true, Stub.zeroM, []), [ErrOrsaNeeds 8])
  /\ orsa_fundamental (Stub.FundamentalModel None)
       (Stub.Orsa_run 1 [] 1 Stub.zeroM) Stub.matches8 640 480 640 480 1 100
       Stub.zeroM []
     = Some ((true, Stub.zeroM, []),
             [OrsaRun (alpha0 640 480) (alpha0 640 480)]).
Proof. split; vm_compute; reflexivity. Qed.

(** C2: [ransac_fundamental] returns, and what it returns is [false] if and
    only if there are fewer correspondences than the sample size of the model;
    with at least that many it returns [true], whatever the engine found. *)
Theorem ransac_fundamental_ok_iff
  FM RR (vec_matchings : list Match) (w1 h1 w2 h2 : Z) (precision : float)
  (nbIterMax : Z) (beta : float) (H : Model) (vec_inliers : list Z) :
  (0 <= SizeSample (build_model FM vec_matchings w1 h1 w2 h2) < 2 ^ 64)%Z ->
  valid_inliers vec_matchings
    (snd (fst (RR (build_model FM vec_matchings w1 h1 w2 h2) vec_inliers
                  precision nbIterMax H beta true))) ->
  exists ok H' inl' tr,
    ransac_fundamental FM RR vec_matchings w1 h1 w2 h2 precision nbIterMax
      beta H vec_inliers = Some ((ok, H', inl'), tr)
    /\ (ok = false <->
        (Z.of_nat (length vec_matchings)
         < SizeSample (build_model FM vec_matchings w1 h1 w2 h2))%Z)
    /\ ((SizeSample (build_model FM vec_matchings w1 h1 w2 h2)
         <= Z.of_nat (length vec_matchings))%Z -> ok = true).
Proof.
  intros Hs Hv. pose proof (size_t_of_int_small _ Hs) as Hcast.
  destruct (Z.le_gt_cases
              (SizeSample (build_model FM vec_matchings w1 h1 w2 h2))
              (Z.of_nat (length vec_matchings))) as [Hle | Hlt].
  - destruct (RR _ _ _ _ _ _ _) as [[k inl] H1] eqn:HRR. simpl in Hv.
    destruct (refine_defined (build_model FM vec_matchings w1 h1 w2 h2)
                _ _ H1 Hv) as (H2 & tr & Hr).
    exists true, H2, inl, (RansacRun :: Iterations k :: tr).
    rewrite (ransac_fundamental_enough FM RR _ _ _ _ _ _ _ _ _ _ k inl H1), Hr
      by (rewrite ?Hcast; assumption).
    repeat split; try discriminate; lia.
  - exists false, H, vec_inliers. eexists.
    rewrite ransac_fundamental_few by (rewrite Hcast; assumption).
    repeat split; try assumption; lia.
Qed.

Lemma ransac_fundamental_ok_iff_witness :
  exists ok H' inl' tr,
    ransac_fundamental (Stub.FundamentalModel None)
      (Stub.Ransac_run 3 [0; 7]%Z Stub.transM) Stub.matches8 640 480 640 480
      1 100 0.5 Stub.zeroM [] = Some ((ok, H', inl'), tr)
    /\ (ok = false <-> (8 < 7)%Z)
    /\ ((7 <= 8)%Z -> ok = true).
Proof.
  apply (ransac_fundamental_ok_iff (Stub.FundamentalModel None)
           (Stub.Ransac_run 3 [0; 7]%Z Stub.transM) Stub.matches8
           640 480 640 480 1 100 0.5 Stub.zeroM []); concrete.
Defined.

(** C3: in [refine], when the least-squares fit over the inliers gives [M2],
    the refinement is accepted, and [M2] is written over the model, if the RMS
    error of [M2] is at most the maximum error before; otherwise the model is
    kept and the warning is written. *)
Theorem refine_accepts_iff (model : ModelEstimator)
  (vec_matchings : list Match) (vec_inliers : list Z) (M M2 : Model)
  (err err2 : float * float) (t t2 : list event) :
  display_stats vec_matchings vec_inliers M = Some (err, t) ->
  ComputeModel model vec_inliers = Some M2 ->
  display_stats vec_matchings vec_inliers M2 = Some (err2, t2) ->
  exists M' tr,
    refine model vec_matchings vec_inliers M = Some (M', tr)
    /\ accepted tr = (fst err2 <=? snd err)
    /\ M' = (if accepted tr then M2 else M)
    /\ (accepted tr = false -> In WarnTooLarge tr).
Proof.
  intros H1 HM2 H2.
  pose proof (refine_cases model _ _ _ _ _ H1) as Hc. rewrite HM2 in Hc.
  specialize (Hc _ _ H2). rewrite Hc. do 2 eexists. split; [reflexivity |].
  destruct (fst err2 <=? snd err); unfold accepted; simpl; repeat split;
    try reflexivity; try discriminate; tauto.
Qed.

Lemma refine_accepts_iff_witness :
  exists M' tr,
    refine (Stub.estimator (Some Stub.transM)) Stub.matches8 [0; 1]%Z
      Stub.shiftM = Some (M', tr)
    /\ accepted tr = true
    /\ M' = (if accepted tr then Stub.transM else Stub.shiftM)
    /\ (accepted tr = false -> In WarnTooLarge tr).
Proof.
  apply (refine_accepts_iff (Stub.estimator (Some Stub.transM)) Stub.matches8
           [0; 1]%Z Stub.shiftM Stub.transM (1, 1) (0, 0) [AverageMax 1 1]
           [AverageMax 0 0]); reflexivity.
Defined.

(** C4: whenever [refine] writes a warning, because the fit over the inliers
    failed or because its RMS error is not at most the maximum error before,
    it still ends, and the model is the one it was given; the inlier list,
    which [refine] cannot write, is the one of the engine when
    [ransac_fundamental] and [orsa_fundamental] return. *)
Theorem refine_rejected_keeps_model (model : ModelEstimator)
  (vec_matchings : list Match) (vec_inliers : list Z) (M : Model) :
  (forall M' tr,
      refine model vec_matchings vec_inliers M = Some (M', tr) ->
      accepted tr = false -> M' = M)
  /\ (forall err t,
         display_stats vec_matchings vec_inliers M = Some (err, t) ->
         ComputeModel model vec_inliers = None ->
         exists tr,
           refine model vec_matchings vec_inliers M = Some (M, tr)
           /\ filter is_warning tr = [WarnSuspect])
  /\ (forall err t M2 err2 t2,
         display_stats vec_matchings vec_inliers M = Some (err, t) ->
         ComputeModel model vec_inliers = Some M2 ->
         display_stats vec_matchings vec_inliers M2 = Some (err2, t2) ->
         (fst err2 <=? snd err) = false ->
         exists tr,
           refine model vec_matchings vec_inliers M = Some (M, tr)
           /\ filter is_warning tr = [WarnTooLarge])
  /\ (forall FM RR w1 h1 w2 h2 precision nbIterMax beta H inl0 H' inl' tr,
         ransac_fundamental FM RR vec_matchings w1 h1 w2 h2 precision
           nbIterMax beta H inl0 = Some ((true, H', inl'), tr) ->
         inl' = snd (fst (RR (build_model FM vec_matchings w1 h1 w2 h2) inl0
                            precision nbIterMax H beta true))
         /\ (accepted tr = false ->
             H' = snd (RR (build_model FM vec_matchings w1 h1 w2 h2) inl0
                         precision nbIterMax H beta true)))
  /\ (forall FM OR w1 h1 w2 h2 precision nbIter F inl0 ok F' inl' tr,
         orsa_fundamental FM OR vec_matchings w1 h1 w2 h2 precision nbIter F
           inl0 = Some ((ok, F', inl'), tr) ->
         In BeforeRefinement tr ->
         inl' = snd (fst (fst (OR (build_model FM vec_matchings w1 h1 w2 h2)
                                 (alpha0 w1 h1) (alpha0 w2 h2) inl0 nbIter
                                 precision F true)))
         /\ (accepted tr = false ->
             F' = snd (OR (build_model FM vec_matchings w1 h1 w2 h2)
                         (alpha0 w1 h1) (alpha0 w2 h2) inl0 nbIter precision
                         F true))).
Proof.
  split; [| split; [| split; [| split]]].
  - intros M' tr. apply refine_warning_keeps.
  - intros err t H1 HN.
    pose proof (refine_cases model _ _ _ _ _ H1) as Hc. rewrite HN in Hc.
    rewrite Hc. eexists. split; reflexivity.
  - intros err t M2 err2 t2 H1 HM2 H2 Hle.
    pose proof (refine_cases model _ _ _ _ _ H1) as Hc. rewrite HM2 in Hc.
    rewrite (Hc _ _ H2), Hle. eexists. split; reflexivity.
  - intros FM RR w1 h1 w2 h2 precision nbIterMax beta H inl0 H' inl' tr Hrun.
    destruct (Z.le_gt_cases
                (size_t_of_int
                   (SizeSample (build_model FM vec_matchings w1 h1 w2 h2)))
                (Z.of_nat (length vec_matchings))) as [Hle | Hlt].
    + destruct (RR _ _ _ _ _ _ _) as [[k inl] H1] eqn:HRR.
      rewrite (ransac_fundamental_enough FM RR _ _ _ _ _ _ _ _ _ _ k inl H1
                 Hle HRR) in Hrun.
      destruct (refine _ _ inl H1) as [[H2 t2] |] eqn:Hr; [| discriminate].
      injection Hrun as <- <- <-. split; [reflexivity |].
      intros Hacc. now apply (refine_warning_keeps _ _ _ _ _ _ Hr).
    + rewrite ransac_fundamental_few in Hrun by assumption. discriminate Hrun.
  - intros FM OR w1 h1 w2 h2 precision nbIter F inl0 ok F' inl' tr Hrun Href.
    destruct (Z.lt_ge_cases
                (size_t_of_int
                   (SizeSample (build_model FM vec_matchings w1 h1 w2 h2)))
                (Z.of_nat (length vec_matchings))) as [Hlt | Hge].
    + destruct (OR _ _ _ _ _ _ _ _) as [[[nfa inl] p] F1] eqn:HOR.
      rewrite (orsa_fundamental_enough FM OR _ _ _ _ _ _ _ _ _ nfa inl p F1
                 Hlt HOR) in Hrun.
      destruct (0 <? nfa).
      * injection Hrun as <- <- <- <-. destruct Href as [Hf | []]. discriminate.
      * destruct (refine _ _ inl F1) as [[F2 t2] |] eqn:Hr; [| discriminate].
        injection Hrun as <- <- <- <-. split; [reflexivity |].
        intros Hacc. now apply (refine_warning_keeps _ _ _ _ _ _ Hr).
    + rewrite orsa_fundamental_few in Hrun by lia.
      destruct (int_add _ 1); [| discriminate Hrun].
      injection Hrun as <- <- <- <-. destruct Href as [Hf | []]. discriminate.
Qed.

Lemma refine_rejected_keeps_model_witness :
  (exists tr,
      refine (Stub.estimator None) Stub.matches8 [0; 1]%Z Stub.transM
      = Some (Stub.transM, tr) /\ filter is_warning tr = [WarnSuspect])
  /\ (exists tr,
         refine (Stub.estimator (Some Stub.shiftM)) Stub.matches8 [0; 1]%Z
           Stub.transM
         = Some (Stub.transM, tr) /\ filter is_warning tr = [WarnTooLarge]).
Proof.
  split.
  - apply (proj1 (proj2 (refine_rejected_keeps_model (Stub.estimator None)
                           Stub.matches8 [0; 1]%Z Stub.transM))
             (0, 0) [AverageMax 0 0]); reflexivity.
  - apply (proj1 (proj2 (proj2 (refine_rejected_keeps_model
                                  (Stub.estimator (Some Stub.shiftM))
                                  Stub.matches8 [0; 1]%Z Stub.transM)))
             (0, 0) [AverageMax 0 0] Stub.shiftM (1, 1) [AverageMax 1 1]);
      reflexivity.
Defined.

(** C5: the threshold the engine writes in [precision] does not leave
    [orsa_fundamental]: whatever threshold [t] the engine finds, the caller
    gets the same status, model, inliers and output, and these hold no
    threshold. *)
Theorem orsa_fundamental_threshold_not_written_back
  FM OR (t : float) (vec_matchings : list Match) (w1 h1 w2 h2 : Z)
  (precision : float) (nbIter : Z) (F : Model) (vec_inliers : list Z) :
  orsa_fundamental FM
    (fun model aL aR inl nb p F0 v =>
       let '(nfa, inl', _, F') := OR model aL aR inl nb p F0 v in
       (nfa, inl', t, F'))
    vec_matchings w1 h1 w2 h2 precision nbIter F vec_inliers
  = orsa_fundamental FM OR vec_matchings w1 h1 w2 h2 precision nbIter F
      vec_inliers.
Proof.
  unfold orsa_fundamental.
  destruct (negb _); [reflexivity |].
  destruct (OR _ _ _ _ _ _ _ _) as [[[nfa inl] p] F2]. reflexivity.
Qed.

(** In the message of [orsa_fundamental], [SizeSample()+1] is an [int]
    addition: at the largest [int] it overflows, and nothing is known of the
    run. *)
Lemma orsa_fundamental_needs_overflow
  FM OR (vec_matchings : list Match) (w1 h1 w2 h2 : Z)
  (precision : float) (nbIter : Z) (F : Model) (vec_inliers : list Z) :
  SizeSample (build_model FM vec_matchings w1 h1 w2 h2) = (2 ^ 31 - 1)%Z ->
  (Z.of_nat (length vec_matchings) <= 2 ^ 31 - 1)%Z ->
  orsa_fundamental FM OR vec_matchings w1 h1 w2 h2 precision nbIter F
    vec_inliers = None.
Proof.
  intros Hs Hn. rewrite orsa_fundamental_few.
  - rewrite Hs. reflexivity.
  - rewrite Hs. exact Hn.
Qed.

(** C6: with too few correspondences (fewer than the sample size for
    [ransac_fundamental], no more than it for [orsa_fundamental], whose
    message holds the sample size plus one, an [int]) the operation writes
    its error message and returns: no engine is run, no refinement is made,
    and the model and the inlier list are the ones it was given. *)
Theorem insufficient_data_aborts
  FM RR OR (vec_matchings : list Match) (w1 h1 w2 h2 : Z)
  (precision : float) (nbIter : Z) (beta : float) (M : Model)
  (vec_inliers : list Z) :
  (0 <= SizeSample (build_model FM vec_matchings w1 h1 w2 h2) < 2 ^ 64)%Z ->
  ((Z.of_nat (length vec_matchings)
    < SizeSample (build_model FM vec_matchings w1 h1 w2 h2))%Z ->
   exists tr,
     ransac_fundamental FM RR vec_matchings w1 h1 w2 h2 precision nbIter beta
       M vec_inliers = Some ((false, M, vec_inliers), tr)
     /\ tr = [ErrRansacNeeds
                (SizeSample (build_model FM vec_matchings w1 h1 w2 h2))]
     /\ existsb is_engine_run tr = false
     /\ existsb is_refinement tr = false)
  /\ ((Z.of_nat (length vec_matchings)
       <= SizeSample (build_model FM vec_matchings w1 h1 w2 h2))%Z ->
      (SizeSample (build_model FM vec_matchings w1 h1 w2 h2) + 1
       < 2 ^ 31)%Z ->
      exists tr,
        orsa_fundamental FM OR vec_matchings w1 h1 w2 h2 precision nbIter
          M vec_inliers = Some ((true, M, vec_inliers), tr)
        /\ tr = [ErrOrsaNeeds
                   (SizeSample (build_model FM vec_matchings w1 h1 w2 h2) + 1)]
        /\ existsb is_engine_run tr = false
        /\ existsb is_refinement tr = false).
Proof.
  intros Hs. pose proof (size_t_of_int_small _ Hs) as Hcast.
  split.
  - intros Hn.
    rewrite ransac_fundamental_few by (rewrite Hcast; assumption).
    eexists. repeat split.
  - intros Hn Hint.
    rewrite orsa_fundamental_few by (rewrite Hcast; assumption).
    unfold int_add.
    destruct (Z.leb_spec (- 2 ^ 31)
                (SizeSample (build_model FM vec_matchings w1 h1 w2 h2) + 1))
      as [_ | Hlow]; [| lia].
    destruct (Z.ltb_spec
                (SizeSample (build_model FM vec_matchings w1 h1 w2 h2) + 1)
                (2 ^ 31)) as [_ | Hhigh]; [| lia].
    eexists. repeat split.
Qed.

Lemma insufficient_data_aborts_witness :
  ransac_fundamental (Stub.FundamentalModel None)
    (Stub.Ransac_run 3 [0]%Z Stub.transM) (firstn 5 Stub.matches8)
    640 480 640 480 1 100 0.5 Stub.zeroM [4]%Z
  = Some ((false, Stub.zeroM, [4]%Z), [ErrRansacNeeds 7])
  /\ orsa_fundamental (Stub.FundamentalModel None)
       (Stub.Orsa_run (-1) [0]%Z 0.5 Stub.transM) (firstn 7 Stub.matches8)
       640 480 640 480 1 100 Stub.zeroM [4]%Z
     = Some ((true, Stub.zeroM, [4]%Z), [ErrOrsaNeeds 8]).
Proof.
  split.
  - destruct (insufficient_data_aborts (Stub.FundamentalModel None)
                (Stub.Ransac_run 3 [0]%Z Stub.transM)
                (Stub.Orsa_run (-1) [0]%Z 0.5 Stub.transM)
                (firstn 5 Stub.matches8) 640 480 640 480 1 100 0.5
                Stub.zeroM [4]%Z) as [Hr _]; [concrete |].
    destruct Hr as (tr & H1 & H2 & _); [concrete |].
    rewrite H1, H2. reflexivity.
  - destruct (insufficient_data_aborts (Stub.FundamentalModel None)
                (Stub.Ransac_run 3 [0]%Z Stub.transM)
                (Stub.Orsa_run (-1) [0]%Z 0.5 Stub.transM)
                (firstn 7 Stub.matches8) 640 480 640 480 1 100 0.5
                Stub.zeroM [4]%Z) as [_ Ho]; [concrete |].
    destruct Ho as (tr & H1 & H2 & _); [concrete | concrete |].
    rewrite H1, H2. reflexivity.
Defined.

(** C7: for every matrix [F] and every non-empty list of indices of
    correspondences, when none of the squared distances [e_i] of the inliers
    is a NaN, [display_stats] returns the square root of their mean and the
    square root of their maximum. *)
Theorem display_stats_rms_max (match_ : list Match) (in_ : list Z) (F : Model)
  (es : list float) :
  in_ <> [] ->
  inlier_errors match_ in_ F = Some es ->
  Forall (fun e => is_nan e = false) es ->
  exists r,
    display_stats match_ in_ F = Some (r, [AverageMax (fst r) (snd r)])
    /\ rms_max_of es r.
Proof.
  intros Hne He Hnan. rewrite (display_stats_folds _ _ _ _ He).
  exists (sqrt (mean es), sqrt (fold_left fmax_step es 0)).
  split; [reflexivity |]. split; [reflexivity |].
  exists (fold_left fmax_step es 0). split; [| reflexivity].
  apply running_maximum.
  - intros ->. apply inlier_errors_length in He.
    destruct in_; [congruence | discriminate].
  - pose proof (inlier_errors_nonneg _ _ _ _ He) as Hnn.
    rewrite Forall_forall in *. intros e Hin.
    apply nonneg_of_not_nan; auto.
Qed.

Lemma display_stats_rms_max_witness :
  exists r,
    display_stats Stub.matches8 [0; 1; 7]%Z Stub.transM
    = Some (r, [AverageMax (fst r) (snd r)])
    /\ rms_max_of [0; 0; 1] r.
Proof.
  apply (display_stats_rms_max Stub.matches8 [0; 1; 7]%Z Stub.transM
           [0; 0; 1]); [discriminate | reflexivity | concrete].
Defined.

(** The statement of C7 fails where a squared distance is a NaN: for the
    correspondence (0,0) -> (1,0) and the matrix of a forward translation,
    whose epipole is (0,0), the line is (0,0,0), [e] is 0/0, and
    [display_stats] returns (NaN, 0), where 0 is the square root of no
    [e_i]. *)
Lemma display_stats_rms_max_fails_on_nan :
  inlier_errors Stub.matches8 [0]%Z Stub.forwardM = Some [nan]
  /\ display_stats Stub.matches8 [0]%Z Stub.forwardM
     = Some ((nan, 0), [AverageMax nan 0])
  /\ ~ rms_max_of [nan] (nan, 0).
Proof.
  split; [reflexivity |]. split; [reflexivity |].
  intros [_ (m & [[<- | []] Hmax] & _)].
  specialize (Hmax nan (or_introl eq_refl)). discriminate Hmax.
Qed.

(** C8: when there are more correspondences than the sample size, the engine
    is built and run with [alpha0Left = 2 * diagonal / area] of the left image
    [(w1,h1)] and [alpha0Right = 2 * diagonal / area] of the right image
    [(w2,h2)], whatever the dimensions. *)
Theorem orsa_fundamental_alpha0
  FM OR (vec_matchings : list Match) (w1 h1 w2 h2 : Z)
  (precision : float) (nbIter : Z) (F : Model) (vec_inliers : list Z) :
  (0 <= SizeSample (build_model FM vec_matchings w1 h1 w2 h2) < 2 ^ 64)%Z ->
  (SizeSample (build_model FM vec_matchings w1 h1 w2 h2)
   < Z.of_nat (length vec_matchings))%Z ->
  valid_inliers vec_matchings
    (snd (fst (fst (OR (build_model FM vec_matchings w1 h1 w2 h2)
                      (alpha0 w1 h1) (alpha0 w2 h2) vec_inliers nbIter
                      precision F true)))) ->
  (exists r tr,
      orsa_fundamental FM OR vec_matchings w1 h1 w2 h2 precision nbIter F
        vec_inliers
      = Some (r, OrsaRun (alpha0 w1 h1) (alpha0 w2 h2) :: tr))
  /\ orsa_fundamental FM OR vec_matchings w1 h1 w2 h2 precision nbIter F
       vec_inliers
     = orsa_fundamental FM
         (fun model _ _ => OR model (alpha0 w1 h1) (alpha0 w2 h2))
         vec_matchings w1 h1 w2 h2 precision nbIter F vec_inliers.
Proof.
  intros Hs Hn Hv. split.
  - unfold orsa_fundamental. rewrite (size_t_of_int_small _ Hs).
    destruct (Z.ltb_spec (SizeSample (build_model FM vec_matchings w1 h1 w2 h2))
                (Z.of_nat (length vec_matchings))) as [_ | Hge]; [| lia].
    simpl negb. cbv iota. fold (diagonal w1 h1) (area w1 h1)
      (diagonal w2 h2) (area w2 h2). fold (alpha0 w1 h1) (alpha0 w2 h2).
    destruct (OR _ _ _ _ _ _ _ _) as [[[nfa inl] p] F2]. simpl in Hv.
    destruct (0 <? nfa).
    + do 2 eexists. reflexivity.
    + destruct (refine_defined (build_model FM vec_matchings w1 h1 w2 h2)
                  _ _ F2 Hv) as (M' & tr & Hr).
      simpl. rewrite Hr. do 2 eexists. reflexivity.
  - unfold orsa_fundamental. destruct (negb _); reflexivity.
Qed.

Lemma orsa_fundamental_alpha0_witness :
  exists r tr,
    orsa_fundamental (Stub.FundamentalModel (Some Stub.transM))
      (Stub.Orsa_run (-1) [0; 7]%Z 0.5 Stub.transM) Stub.matches8
      1000 800 640 480 1 100 Stub.zeroM []
    = Some (r, OrsaRun (alpha0 1000 800) (alpha0 640 480) :: tr).
Proof.
  apply (orsa_fundamental_alpha0 (Stub.FundamentalModel (Some Stub.transM))
           (Stub.Orsa_run (-1) [0; 7]%Z 0.5 Stub.transM) Stub.matches8
           1000 800 640 480 1 100 Stub.zeroM []); concrete.
Defined.

(** C10: [display_stats] divides by [in.size()] and by [a*a + b*b] without a
    test.  On an empty inlier list the divisor [in.size()] is 0 and it returns
    (NaN, 0); when the normal [(a,b)] of the line of some inlier is zero, its
    RMS is a NaN or infinite.  [ransac_fundamental] refines whenever there are
    at least as many correspondences as the sample size: when the engine
    leaves an empty inlier list, [display_stats] is run on it and writes
    NaN. *)
Theorem display_stats_unguarded_divisions :
  (forall match_ F,
      Double.of_size (length (@nil Z)) = 0
      /\ display_stats match_ [] F = Some ((nan, 0), [AverageMax nan 0]))
  /\ (forall match_ in_ F es i m a b c,
         inlier_errors match_ in_ F = Some es ->
         In i in_ -> match_at match_ i = Some m ->
         epipolar_line F (x1 m) (y1 m) = (a, b, c) ->
         (a =? 0) = true -> (b =? 0) = true ->
         exists r tr,
           display_stats match_ in_ F = Some (r, tr)
           /\ is_nan (fst r) || is_infinity (fst r) = true)
  /\ (forall FM RR vec_matchings w1 h1 w2 h2 precision nbIterMax beta H
        vec_inliers,
         (0 <= SizeSample (build_model FM vec_matchings w1 h1 w2 h2)
          < 2 ^ 64)%Z ->
         (SizeSample (build_model FM vec_matchings w1 h1 w2 h2)
          <= Z.of_nat (length vec_matchings))%Z ->
         snd (fst (RR (build_model FM vec_matchings w1 h1 w2 h2) vec_inliers
                     precision nbIterMax H beta true)) = [] ->
         exists n H' tr,
           ransac_fundamental FM RR vec_matchings w1 h1 w2 h2 precision
             nbIterMax beta H vec_inliers
           = Some ((true, H', []),
                   RansacRun :: Iterations n :: BeforeRefinement
                   :: AverageMax nan 0 :: tr)).
Proof.
  split; [| split].
  - intros match_ F. split; reflexivity.
  - intros match_ in_ F es i m a b c He Hin Hm Hline Ha Hb.
    rewrite (display_stats_folds _ _ _ _ He). do 2 eexists.
    split; [reflexivity |]. simpl fst.
    apply inf_or_nan_not_finite. rewrite sqrt_spec. apply SFsqrt_inf.
    unfold mean. rewrite div_spec.
    apply SFdiv_inf; [| apply of_size_nonneg].
    apply (sum_becomes_inf es (inlier_error F m)).
    + apply (inlier_errors_nonneg _ _ _ _ He).
    + reflexivity.
    + apply (inlier_errors_In _ _ _ _ _ _ He Hin Hm).
    + change (inlier_error F m)
        with (sq_dist_to_line (epipolar_line F (x1 m) (y1 m)) (x2 m) (y2 m)).
      rewrite Hline. unfold sq_dist_to_line.
      rewrite div_spec, (zero_normal a b Ha Hb).
      apply SFdiv_by_zero, square_nonneg.
  - intros FM RR vec_matchings w1 h1 w2 h2 precision nbIterMax beta H
      vec_inliers Hs Hn Hempty.
    unfold ransac_fundamental. rewrite (size_t_of_int_small _ Hs).
    destruct (Z.leb_spec (SizeSample (build_model FM vec_matchings w1 h1 w2 h2))
                (Z.of_nat (length vec_matchings))) as [_ | Hlt]; [| lia].
    simpl negb. cbv iota.
    destruct (RR _ _ _ _ _ _ _) as [[n inl] H1]. simpl in Hempty. subst inl.
    pose proof (refine_cases (build_model FM vec_matchings w1 h1 w2 h2)
                  vec_matchings [] H1 (nan, 0) _ eq_refl) as Hc.
    destruct (ComputeModel _ _) as [M2 |].
    + rewrite (Hc (nan, 0) _ eq_refl). simpl. do 3 eexists. reflexivity.
    + rewrite Hc. simpl. do 3 eexists. reflexivity.
Qed.

Lemma display_stats_unguarded_divisions_witness :
  (exists r tr,
      display_stats Stub.matches8 [1; 0]%Z Stub.forwardM = Some (r, tr)
      /\ is_nan (fst r) || is_infinity (fst r) = true)
  /\ (exists n H' tr,
         ransac_fundamental (Stub.FundamentalModel None)
           (Stub.Ransac_run 100 [] Stub.zeroM) Stub.matches8 640 480 640 480
           1 100 0.5 Stub.zeroM []
         = Some ((true, H', []),
                 RansacRun :: Iterations n :: BeforeRefinement
                 :: AverageMax nan 0 :: tr)).
Proof.
  split.
  - apply (proj1 (proj2 display_stats_unguarded_divisions) Stub.matches8
             [1; 0]%Z Stub.forwardM [0.5; nan] 0%Z (mkMatch 0 0 1 0) 0 0 0);
      try reflexivity.
    right. left. reflexivity.
  - apply (proj2 (proj2 display_stats_unguarded_divisions)
             (Stub.FundamentalModel None) (Stub.Ransac_run 100 [] Stub.zeroM)
             Stub.matches8 640%Z 480%Z 640%Z 480%Z 1 100%Z 0.5 Stub.zeroM []);
      concrete.
Defined.

(** * Further properties of the code *)

(** ** Rounding a mantissa that is not negative gives no NaN *)

Lemma iter_pos_invariant {A : Type} (P : A -> Prop) (f : A -> A) :
  (forall x, P x -> P (f x)) ->
  forall n x, P x -> P (iter_pos f n x).
Proof.
  intros Hf. induction n as [n IH | n IH |]; intros x Hx; simpl; auto.
Qed.

Lemma shr_1_nonneg (mrs : shr_record) :
  (0 <= shr_m mrs)%Z -> (0 <= shr_m (shr_1 mrs))%Z.
Proof.
  destruct mrs as [m r s]. simpl.
  destruct m as [| [p | p |] | p]; simpl; lia.
Qed.

Lemma shr_fexp_nonneg (m e : Z) (l : location) :
  (0 <= m)%Z -> (0 <= shr_m (fst (shr_fexp prec emax m e l)))%Z.
Proof.
  intros Hm. unfold shr_fexp, shr.
  assert (H0 : (0 <= shr_m (shr_record_of_loc m l))%Z)
    by (destruct l as [| []]; exact Hm).
  destruct (fexp prec emax (Zdigits2 m + e) - e)%Z; simpl; try exact H0.
  apply (iter_pos_invariant (fun x => (0 <= shr_m x)%Z)); [| exact H0].
  exact shr_1_nonneg.
Qed.

Lemma round_nearest_even_nonneg (m : Z) (l : location) :
  (0 <= m)%Z -> (0 <= round_nearest_even m l)%Z.
Proof.
  intros Hm. destruct l as [| []]; simpl; try lia.
  destruct (Z.even m); lia.
Qed.

Lemma binary_round_aux_number (m e : Z) (l : location) :
  (0 <= m)%Z -> nonneg (binary_round_aux prec emax false m e l) = true.
Proof.
  intros Hm. unfold binary_round_aux.
  pose proof (shr_fexp_nonneg m e l Hm) as H1.
  destruct (shr_fexp prec emax m e l) as [mrs' e']. simpl in H1.
  pose proof (shr_fexp_nonneg _ e' loc_Exact
                (round_nearest_even_nonneg _ (loc_of_shr_record mrs') H1)) as H2.
  destruct (shr_fexp prec emax _ e' loc_Exact) as [mrs'' e'']. simpl in H2.
  destruct (shr_m mrs''); [reflexivity | | lia].
  destruct (Z.leb e'' _); reflexivity.
Qed.

Lemma binary_round_number (m : positive) (e : Z) :
  nonneg (binary_round prec emax false m e) = true.
Proof.
  unfold binary_round. destruct (shl_align m e _) as [mz ez].
  now apply binary_round_aux_number.
Qed.

Lemma SFmul_self_number (x : spec_float) :
  x <> S754_nan -> nonneg (SF64mul x x) = true.
Proof.
  destruct x as [[|] | [|] | | [|] m e]; try reflexivity; try congruence;
    intros _; now apply binary_round_aux_number.
Qed.

Lemma SFadd_number (x y : spec_float) :
  nonneg x = true -> nonneg y = true -> nonneg (SF64add x y) = true.
Proof.
  destruct x as [[|] | [|] | | [|] mx ex]; try discriminate;
    destruct y as [[|] | [|] | | [|] my ey]; try discriminate;
    try reflexivity.
  intros _ _. unfold SF64add, SFadd. simpl cond_Zopp.
  destruct (shl_align mx ex _) as [ma ea], (shl_align my ey _) as [mb eb].
  simpl. apply binary_round_number.
Qed.

Lemma SFdiv_core_nonneg (m1 m2 : positive) (e1 e2 : Z) :
  (0 <= fst (fst (SFdiv_core_binary prec emax (Zpos m1) e1 (Zpos m2) e2)))%Z.
Proof.
  unfold SFdiv_core_binary.
  set (s := (e1 - e2 - _)%Z).
  set (m' := match s with Zpos _ => Z.shiftl (Zpos m1) s | Z0 => Zpos m1
                     | Zneg _ => 0%Z end).
  assert (Hm' : (0 <= m')%Z).
  { unfold m'. destruct s; try lia. apply Z.shiftl_nonneg. lia. }
  pose proof (Z_div_mod m' (Zpos m2) eq_refl) as Hdm.
  destruct (Z.div_eucl m' (Zpos m2)) as [q r]. simpl.
  destruct Hdm as [Heq Hr]. nia.
Qed.

Lemma SFdiv_number (x y : spec_float) :
  nonneg x = true ->
  (exists m e, y = S754_finite false m e) ->
  nonneg (SF64div x y) = true.
Proof.
  intros Hx (my & ey & ->).
  destruct x as [[|] | [|] | | [|] mx ex]; try discriminate; try reflexivity.
  unfold SF64div, SFdiv.
  pose proof (SFdiv_core_nonneg mx my ex ey) as Hq.
  destruct (SFdiv_core_binary _ _ _ _ _ _) as [[mz ez] lz]. simpl in Hq.
  now apply binary_round_aux_number.
Qed.

Lemma SFsqrt_number (x : spec_float) :
  nonneg x = true -> nonneg (SF64sqrt x) = true.
Proof.
  destruct x as [[|] | [|] | | [|] mx ex]; try discriminate; try reflexivity.
  intros _. unfold SF64sqrt, SFsqrt, SFsqrt_core_binary.
  set (s := (ex - _)%Z).
  set (m' := match s with Zpos _ => Z.shiftl (Zpos mx) s | Z0 => Zpos mx
                     | Zneg _ => 0%Z end).
  assert (Hm' : (0 <= m')%Z).
  { unfold m'. destruct s; try lia. apply Z.shiftl_nonneg. lia. }
  pose proof (Z.sqrtrem_spec m' Hm') as Hsq.
  destruct (Z.sqrtrem m') as [q r].
  apply binary_round_aux_number. lia.
Qed.

Lemma SFsqrt_nonneg_or_nan (x : spec_float) :
  nonneg_or_nan x = true -> nonneg_or_nan (SF64sqrt x) = true.
Proof.
  destruct x as [[|] | [|] | | [|] mx ex]; try discriminate; try reflexivity.
  intros _. unfold SF64sqrt, SFsqrt.
  destruct (SFsqrt_core_binary _ _ _ _) as [[mz ez] lz].
  apply binary_round_aux_nonneg.
Qed.

(** ** Numbers and NaN among the primitive floats *)

Lemma number_not_nan (x : float) :
  nonneg (Prim2SF x) = true -> is_nan x = false.
Proof.
  intros Hx. destruct (is_nan x) eqn:Hn; [| reflexivity].
  rewrite (is_nan_Prim2SF x Hn) in Hx. discriminate Hx.
Qed.

Lemma number_leb_zero (x : float) :
  nonneg (Prim2SF x) = true -> (0 <=? x) = true.
Proof.
  rewrite leb_spec. change (Prim2SF 0) with (S754_zero false).
  destruct (Prim2SF x) as [[|] | [|] | | [|] m e]; try discriminate;
    reflexivity.
Qed.

Lemma ltb_nan_r (x e : float) : is_nan e = true -> (x <? e) = false.
Proof.
  intros He. rewrite ltb_spec, (is_nan_Prim2SF e He).
  unfold SFltb. now destruct (Prim2SF x).
Qed.

Lemma leb_nan_l (x e : float) : is_nan e = true -> (e <=? x) = false.
Proof. intros He. rewrite leb_spec, (is_nan_Prim2SF e He). reflexivity. Qed.

Lemma finite_positive (n : float) :
  (0 <? n) = true -> is_infinity n = false ->
  exists m e, Prim2SF n = S754_finite false m e.
Proof.
  rewrite ltb_spec. change (Prim2SF 0) with (S754_zero false).
  destruct (Prim2SF n) as [[|] | [|] | | [|] m e] eqn:Hp; try discriminate.
  - intros _ Hinf. now rewrite (Prim2SF_inj n infinity Hp) in Hinf.
  - intros _ _. now exists m, e.
Qed.

Lemma stats_loop_undefined (match_ : list Match) (F : Model) :
  forall in_ acc,
    inlier_errors match_ in_ F = None -> stats_loop match_ F acc in_ = None.
Proof.
  induction in_ as [| i rest IH]; simpl; intros acc; [discriminate |].
  destruct (match_at match_ i) as [m |]; [| reflexivity].
  destruct (inlier_errors match_ rest F) as [es' |]; [discriminate |].
  intros _. now apply IH.
Qed.

Lemma display_stats_errors (match_ : list Match) (in_ : list Z) (F : Model)
  (r : float * float) (tr : list event) :
  display_stats match_ in_ F = Some (r, tr) ->
  exists es,
    inlier_errors match_ in_ F = Some es
    /\ r = (sqrt (mean es), sqrt (fold_left fmax_step es 0)).
Proof.
  intros Hd. destruct (inlier_errors match_ in_ F) as [es |] eqn:He.
  - rewrite (display_stats_folds _ _ _ _ He) in Hd. injection Hd as <- _.
    now exists es.
  - unfold display_stats in Hd.
    now rewrite (stats_loop_undefined _ _ _ _ He) in Hd.
Qed.

(** ** The running maximum skips the NaN *)

Lemma fmax_step_nan (m e : float) : is_nan e = true -> fmax_step m e = m.
Proof. intros He. unfold fmax_step. now rewrite (ltb_nan_r m e He). Qed.

Lemma fold_fmax_numbers (es : list float) :
  forall m, fold_left fmax_step es m = fold_left fmax_step (numbers es) m.
Proof.
  induction es as [| e es IH]; intros m; simpl; [reflexivity |].
  destruct (is_nan e) eqn:He; simpl.
  - rewrite (fmax_step_nan m e He). apply IH.
  - apply IH.
Qed.

Lemma numbers_nonneg (es : list float) :
  Forall (fun e => nonneg_or_nan (Prim2SF e) = true) es ->
  Forall (fun e => nonneg (Prim2SF e) = true) (numbers es).
Proof.
  intros Hall. rewrite Forall_forall in *. intros e Hin.
  apply filter_In in Hin. destruct Hin as [Hin Hn].
  apply nonneg_of_not_nan; [now apply Hall |].
  now destruct (is_nan e).
Qed.

Lemma running_maximum_numbers (es : list float) :
  Forall (fun e => nonneg_or_nan (Prim2SF e) = true) es ->
  (numbers es = [] /\ fold_left fmax_step es 0 = 0)
  \/ is_maximum (numbers es) (fold_left fmax_step es 0).
Proof.
  intros Hall. rewrite fold_fmax_numbers.
  destruct (numbers es) as [| e l] eqn:Hnum.
  - left. now split.
  - right. rewrite <- Hnum. apply running_maximum.
    + now rewrite Hnum.
    + now apply numbers_nonneg.
Qed.

Lemma running_maximum_number (es : list float) :
  Forall (fun e => nonneg_or_nan (Prim2SF e) = true) es ->
  nonneg (Prim2SF (fold_left fmax_step es 0)) = true.
Proof.
  intros Hall. destruct (running_maximum_numbers es Hall) as [[_ ->] | [Hin _]].
  - reflexivity.
  - pose proof (numbers_nonneg es Hall) as Hn. rewrite Forall_forall in Hn.
    now apply Hn.
Qed.

(** X1: the maximum [display_stats] reports is the square root of [linf],
    where [linf] is the maximum of the squared distances that are numbers:
    a NaN among them is passed over, and [linf] is 0 when none is a
    number. *)
Theorem display_stats_max_skips_nan (match_ : list Match) (in_ : list Z)
  (F : Model) (es : list float) :
  inlier_errors match_ in_ F = Some es ->
  exists r tr linf,
    display_stats match_ in_ F = Some (r, tr)
    /\ snd r = sqrt linf
    /\ ((numbers es = [] /\ linf = 0) \/ is_maximum (numbers es) linf).
Proof.
  intros He. rewrite (display_stats_folds _ _ _ _ He).
  do 3 eexists. split; [reflexivity |]. split; [reflexivity |].
  apply running_maximum_numbers, (inlier_errors_nonneg _ _ _ _ He).
Qed.

Lemma display_stats_max_skips_nan_witness :
  exists r tr linf,
    display_stats Stub.matches8 [0; 7; 1]%Z Stub.forwardM = Some (r, tr)
    /\ snd r = sqrt linf
    /\ ((numbers [nan; 0; 0.5] = [] /\ linf = 0)
        \/ is_maximum (numbers [nan; 0; 0.5]) linf).
Proof.
  apply (display_stats_max_skips_nan Stub.matches8 [0; 7; 1]%Z Stub.forwardM
           [nan; 0; 0.5]).
  reflexivity.
Defined.

Lemma sum_nonneg (es : list float) :
  forall acc,
    Forall (fun e => nonneg_or_nan (Prim2SF e) = true) es ->
    nonneg_or_nan (Prim2SF acc) = true ->
    nonneg_or_nan (Prim2SF (fold_left add es acc)) = true.
Proof.
  induction es as [| e es IH]; intros acc Hall Hacc; simpl; [assumption |].
  inversion Hall as [| ? ? He Hes]; subst. apply IH; [assumption |].
  rewrite add_spec. now apply SFadd_nonneg.
Qed.

(** X2: whenever [display_stats] returns, the maximum it reports is a
    number and is not negative (it is never a NaN), and the RMS it reports
    is a NaN or a number that is not negative. *)
Theorem display_stats_never_negative (match_ : list Match) (in_ : list Z)
  (F : Model) (r : float * float) (tr : list event) :
  display_stats match_ in_ F = Some (r, tr) ->
  (0 <=? snd r) = true
  /\ (is_nan (fst r) = true \/ (0 <=? fst r) = true).
Proof.
  intros Hd. destruct (display_stats_errors _ _ _ _ _ Hd) as (es & He & ->).
  pose proof (inlier_errors_nonneg _ _ _ _ He) as Hall. simpl. split.
  - apply number_leb_zero. rewrite sqrt_spec. apply SFsqrt_number.
    now apply running_maximum_number.
  - assert (Hr : nonneg_or_nan (Prim2SF (sqrt (mean es))) = true).
    { rewrite sqrt_spec. apply SFsqrt_nonneg_or_nan. unfold mean.
      rewrite div_spec. apply SFdiv_nonneg; [| apply of_size_nonneg].
      now apply sum_nonneg. }
    destruct (is_nan (sqrt (mean es))) eqn:Hn; [now left | right].
    apply number_leb_zero. now apply nonneg_of_not_nan.
Qed.

Lemma display_stats_never_negative_witness :
  (0 <=? 1) = true /\ (is_nan (sqrt (1 / 3)) = true \/ (0 <=? sqrt (1 / 3)) = true).
Proof.
  apply (display_stats_never_negative Stub.matches8 [0; 1; 7]%Z Stub.transM
           (sqrt (1 / 3), 1) [AverageMax (sqrt (1 / 3)) 1]).
  reflexivity.
Defined.

(** ** A NaN among the errors *)

Lemma Prim2SF_nan_is_nan (x : float) :
  Prim2SF x = S754_nan -> is_nan x = true.
Proof. intros Hx. now rewrite (Prim2SF_inj x nan Hx). Qed.

Lemma sum_stays_nan (es : list float) :
  forall acc, is_nan acc = true -> is_nan (fold_left add es acc) = true.
Proof.
  induction es as [| e es IH]; intros acc Hacc; simpl; [assumption |].
  apply IH. apply is_nan_Prim2SF in Hacc.
  apply Prim2SF_nan_is_nan. rewrite add_spec, Hacc. reflexivity.
Qed.

Lemma sum_becomes_nan (es : list float) :
  forall acc,
    Exists (fun e => is_nan e = true) es ->
    is_nan (fold_left add es acc) = true.
Proof.
  induction es as [| e es IH]; intros acc Hex; [inversion Hex |].
  simpl. inversion Hex as [? ? He | ? ? Hes]; subst.
  - apply sum_stays_nan. apply is_nan_Prim2SF in He.
    apply Prim2SF_nan_is_nan. rewrite add_spec, He.
    now destruct (Prim2SF acc).
  - now apply IH.
Qed.

Lemma rms_nan (es : list float) :
  Exists (fun e => is_nan e = true) es -> is_nan (sqrt (mean es)) = true.
Proof.
  intros Hex. pose proof (sum_becomes_nan es 0 Hex) as Hs.
  apply is_nan_Prim2SF in Hs. apply Prim2SF_nan_is_nan.
  unfold mean, sum. rewrite sqrt_spec, div_spec, Hs. reflexivity.
Qed.

Lemma refine_nothing (model : ModelEstimator) (vec_matchings : list Match)
  (M : Model) :
  exists tr,
    refine model vec_matchings [] M = Some (M, tr) /\ accepted tr = false.
Proof.
  pose proof (refine_cases model vec_matchings [] M (nan, 0)
                [AverageMax nan 0] eq_refl) as Hc.
  destruct (ComputeModel model []) as [M2 |].
  - rewrite (Hc (nan, 0) [AverageMax nan 0] eq_refl).
    eexists. split; reflexivity.
  - rewrite Hc. eexists. split; reflexivity.
Qed.

(** X11: a fit over the inliers for which the squared distance of some
    inlier is a NaN is never accepted: [refine] keeps the model and writes
    that the error after refinement is too large. *)
Theorem refine_rejects_nan_refit (model : ModelEstimator)
  (vec_matchings : list Match) (vec_inliers : list Z) (M M2 : Model)
  (es2 : list float) :
  valid_inliers vec_matchings vec_inliers ->
  ComputeModel model vec_inliers = Some M2 ->
  inlier_errors vec_matchings vec_inliers M2 = Some es2 ->
  Exists (fun e => is_nan e = true) es2 ->
  exists tr,
    refine model vec_matchings vec_inliers M = Some (M, tr)
    /\ filter is_warning tr = [WarnTooLarge].
Proof.
  intros Hv HM2 He2 Hex.
  destruct (display_stats_defined _ _ M Hv) as [err H1].
  pose proof (refine_cases model _ _ _ _ _ H1) as Hc. rewrite HM2 in Hc.
  rewrite (Hc _ _ (display_stats_folds _ _ _ _ He2)). simpl fst.
  rewrite (leb_nan_l _ _ (rms_nan es2 Hex)).
  eexists. split; reflexivity.
Qed.

Lemma refine_rejects_nan_refit_witness :
  exists tr,
    refine (Stub.estimator (Some Stub.forwardM)) Stub.matches8 [0; 1]%Z
      Stub.shiftM = Some (Stub.shiftM, tr)
    /\ filter is_warning tr = [WarnTooLarge].
Proof.
  apply (refine_rejects_nan_refit (Stub.estimator (Some Stub.forwardM))
           Stub.matches8 [0; 1]%Z Stub.shiftM Stub.forwardM [nan; 0.5]);
    [concrete | reflexivity | reflexivity |].
  left. reflexivity.
Defined.

(** X6: [display_stats] reads [match[i]] for every index of the list:
    it is defined exactly when every index is at least 0 and below the
    number of correspondences. *)
Theorem display_stats_defined_iff (match_ : list Match) (in_ : list Z)
  (F : Model) :
  (exists r, display_stats match_ in_ F = Some r) <-> valid_inliers match_ in_.
Proof.
  split.
  - intros [[r tr] Hd]. destruct (display_stats_errors _ _ _ _ _ Hd) as (es & He & _).
    clear Hd. revert es He. induction in_ as [| i rest IH]; intros es He.
    + constructor.
    + simpl in He. unfold match_at in He at 1.
      destruct (Z.ltb_spec i 0) as [Hneg | Hpos]; [discriminate |].
      destruct (nth_error match_ (Z.to_nat i)) as [m |] eqn:Hnth;
        [| discriminate].
      destruct (inlier_errors match_ rest F) as [es' |]; [| discriminate].
      constructor; [| now apply (IH es')].
      assert (Hlt : (Z.to_nat i < length match_)%nat)
        by (apply nth_error_Some; congruence).
      lia.
  - intros Hv. destruct (display_stats_defined _ _ F Hv) as [err Hd]. eauto.
Qed.

(** X7: [display_stats] reads the correspondences of the inlier list
    only: two lists of correspondences that hold the same ones at these
    indices give the same result and output. *)
Theorem display_stats_reads_inliers_only (match1 match2 : list Match)
  (in_ : list Z) (F : Model) :
  (forall i, In i in_ -> match_at match1 i = match_at match2 i) ->
  display_stats match1 in_ F = display_stats match2 in_ F.
Proof.
  intros Hsame. unfold display_stats.
  assert (Hloop : forall acc, stats_loop match1 F acc in_
                              = stats_loop match2 F acc in_).
  { induction in_ as [| i rest IH]; intros acc; simpl; [reflexivity |].
    rewrite (Hsame i (or_introl eq_refl)).
    destruct (match_at match2 i); [| reflexivity].
    apply IH. intros j Hj. apply Hsame. now right. }
  now rewrite Hloop.
Qed.

Lemma display_stats_reads_inliers_only_witness :
  display_stats Stub.matches8 [0; 1]%Z Stub.transM
  = display_stats (firstn 2 Stub.matches8) [0; 1]%Z Stub.transM.
Proof.
  apply (display_stats_reads_inliers_only Stub.matches8
           (firstn 2 Stub.matches8) [0; 1]%Z Stub.transM).
  intros i [<- | [<- | []]]; reflexivity.
Defined.

(** ** The entry operations at their edges *)

(** X10: on an empty inlier list [refine] never replaces the model and
    always writes a warning (the RMS is 0/0); so when the engine leaves no
    inlier, [ransac_fundamental], and [orsa_fundamental] unless the engine
    returned more than 0, return the model of the engine with a warning. *)
Theorem no_inlier_keeps_model
  FM RR OR (vec_matchings : list Match) (w1 h1 w2 h2 : Z)
  (precision : float) (nbIter : Z) (beta : float) (M : Model)
  (vec_inliers : list Z) :
  (forall model,
      exists tr,
        refine model vec_matchings [] M = Some (M, tr)
        /\ accepted tr = false)
  /\ (forall k H1,
         (size_t_of_int (SizeSample (build_model FM vec_matchings w1 h1 w2 h2))
          <= Z.of_nat (length vec_matchings))%Z ->
         RR (build_model FM vec_matchings w1 h1 w2 h2) vec_inliers precision
           nbIter M beta true = (k, [], H1) ->
         exists tr,
           ransac_fundamental FM RR vec_matchings w1 h1 w2 h2 precision nbIter
             beta M vec_inliers = Some ((true, H1, []), tr)
           /\ accepted tr = false)
  /\ (forall nfa p F1,
         (size_t_of_int (SizeSample (build_model FM vec_matchings w1 h1 w2 h2))
          < Z.of_nat (length vec_matchings))%Z ->
         OR (build_model FM vec_matchings w1 h1 w2 h2) (alpha0 w1 h1)
           (alpha0 w2 h2) vec_inliers nbIter precision M true
         = (nfa, [], p, F1) ->
         (0 <? nfa) = false ->
         exists tr,
           orsa_fundamental FM OR vec_matchings w1 h1 w2 h2 precision nbIter
             M vec_inliers = Some ((true, F1, []), tr)
           /\ accepted tr = false).
Proof.
  split; [| split].
  - intros model. apply refine_nothing.
  - intros k H1 Hn HRR.
    rewrite (ransac_fundamental_enough FM RR _ _ _ _ _ _ _ _ _ _ k [] H1 Hn HRR).
    destruct (refine_nothing (build_model FM vec_matchings w1 h1 w2 h2)
                vec_matchings H1) as (tr & -> & Hacc).
    eexists. split; [reflexivity | exact Hacc].
  - intros nfa p F1 Hn HOR Hnfa.
    rewrite (orsa_fundamental_enough FM OR _ _ _ _ _ _ _ _ _ nfa [] p F1 Hn HOR),
      Hnfa.
    destruct (refine_nothing (build_model FM vec_matchings w1 h1 w2 h2)
                vec_matchings F1) as (tr & -> & Hacc).
    eexists. split; [reflexivity | exact Hacc].
Qed.

Lemma no_inlier_keeps_model_witness :
  (exists tr,
      ransac_fundamental (Stub.FundamentalModel (Some Stub.transM))
        (Stub.Ransac_run 100 [] Stub.shiftM) Stub.matches8 640 480 640 480
        1 100 0.5 Stub.zeroM [3]%Z = Some ((true, Stub.shiftM, []), tr)
      /\ accepted tr = false)
  /\ (exists tr,
         orsa_fundamental (Stub.FundamentalModel (Some Stub.transM))
           (Stub.Orsa_run 0 [] 0.5 Stub.shiftM) Stub.matches8 640 480 640 480
           1 100 Stub.zeroM [3]%Z = Some ((true, Stub.shiftM, []), tr)
         /\ accepted tr = false).
Proof.
  destruct (no_inlier_keeps_model (Stub.FundamentalModel (Some Stub.transM))
              (Stub.Ransac_run 100 [] Stub.shiftM)
              (Stub.Orsa_run 0 [] 0.5 Stub.shiftM) Stub.matches8
              640 480 640 480 1 100 0.5 Stub.zeroM [3]%Z) as (_ & Hr & Ho).
  split.
  - apply (Hr 100%Z Stub.shiftM); concrete.
  - apply (Ho 0 0.5 Stub.shiftM); concrete.
Defined.

(** X13: with more correspondences than the sample size,
    [orsa_fundamental] refines exactly when the value the engine returns is
    not above 0: it refines when that value is 0 or a NaN, and returns the
    model of the engine as it is when it is above 0. *)
Theorem orsa_fundamental_refines_unless_positive
  FM OR (vec_matchings : list Match) (w1 h1 w2 h2 : Z)
  (precision : float) (nbIter : Z) (F : Model) (vec_inliers : list Z)
  (nfa : float) (inl : list Z) (p : float) (F1 : Model) :
  (size_t_of_int (SizeSample (build_model FM vec_matchings w1 h1 w2 h2))
   < Z.of_nat (length vec_matchings))%Z ->
  OR (build_model FM vec_matchings w1 h1 w2 h2) (alpha0 w1 h1) (alpha0 w2 h2)
    vec_inliers nbIter precision F true = (nfa, inl, p, F1) ->
  valid_inliers vec_matchings inl ->
  exists F' tr,
    orsa_fundamental FM OR vec_matchings w1 h1 w2 h2 precision nbIter F
      vec_inliers = Some ((true, F', inl), tr)
    /\ (In BeforeRefinement tr <-> (0 <? nfa) = false)
    /\ ((0 <? nfa) = true -> F' = F1)
    /\ ((nfa =? 0) = true \/ is_nan nfa = true -> In BeforeRefinement tr).
Proof.
  intros Hn HOR Hv.
  rewrite (orsa_fundamental_enough FM OR _ _ _ _ _ _ _ _ _ nfa inl p F1 Hn HOR).
  assert (Hedge : (nfa =? 0) = true \/ is_nan nfa = true -> (0 <? nfa) = false).
  { intros [Hz | Hnan]; [| now apply ltb_nan_r].
    apply eqb_zero in Hz. destruct Hz as [s Hz].
    rewrite ltb_spec, Hz. reflexivity. }
  destruct (0 <? nfa) eqn:Hpos.
  - do 2 eexists. split; [reflexivity |]. repeat split.
    + intros [Hf | []]. discriminate Hf.
    + discriminate.
    + intros Hz. now apply Hedge in Hz.
  - destruct (display_stats_defined _ _ F1 Hv) as [err H1].
    destruct (refine_defined (build_model FM vec_matchings w1 h1 w2 h2)
                _ _ F1 Hv) as (F2 & tr & Hr).
    assert (Hin : In BeforeRefinement tr).
    { pose proof (refine_cases (build_model FM vec_matchings w1 h1 w2 h2)
                    _ _ _ _ _ H1) as Hc.
      destruct (ComputeModel _ inl) as [M2 |].
      - destruct (display_stats_defined _ _ M2 Hv) as [err2 H2].
        rewrite (Hc _ _ H2) in Hr. injection Hr as _ <-. now left.
      - rewrite Hc in Hr. injection Hr as _ <-. now left. }
    rewrite Hr. do 2 eexists. split; [reflexivity |]. repeat split.
    + intros _. now right.
    + discriminate.
    + intros _. now right.
Qed.

Lemma orsa_fundamental_refines_unless_positive_witness :
  exists F' tr,
    orsa_fundamental (Stub.FundamentalModel None)
      (Stub.Orsa_run 0 [0; 1]%Z 0.5 Stub.transM) Stub.matches8
      640 480 640 480 1 100 Stub.zeroM []
    = Some ((true, F', [0; 1]%Z), tr)
    /\ (In BeforeRefinement tr <-> (0 <? 0) = false)
    /\ ((0 <? 0) = true -> F' = Stub.transM)
    /\ ((0 =? 0) = true \/ is_nan 0 = true -> In BeforeRefinement tr).
Proof.
  apply (orsa_fundamental_refines_unless_positive (Stub.FundamentalModel None)
           (Stub.Orsa_run 0 [0; 1]%Z 0.5 Stub.transM) Stub.matches8
           640 480 640 480 1 100 Stub.zeroM [] 0 [0; 1]%Z 0.5 Stub.transM);
    concrete.
Defined.

(** ** [alpha0] *)

Lemma SFmul_zero_r (x : spec_float) (s : bool) :
  SF64mul x (S754_zero s) = S754_nan
  \/ exists s', SF64mul x (S754_zero s) = S754_zero s'.
Proof. destruct x as [sx | sx | | sx m e]; simpl; eauto. Qed.

Lemma SFmul_zero_l (x : spec_float) (s : bool) :
  SF64mul (S754_zero s) x = S754_nan
  \/ exists s', SF64mul (S754_zero s) x = S754_zero s'.
Proof. destruct x as [sx | sx | | sx m e]; simpl; eauto. Qed.

Lemma SFdiv_zero_not_finite (x y : spec_float) :
  y = S754_nan \/ (exists s, y = S754_zero s) ->
  not_finite (SF64div x y) = true.
Proof.
  intros [-> | [s ->]]; destruct x as [sx | sx | | sx m e]; reflexivity.
Qed.

Lemma not_finite_prim (x : float) :
  not_finite (Prim2SF x) = true -> is_nan x || is_infinity x = true.
Proof.
  intros Hx.
  destruct (Prim2SF x) as [s | [|] | | s m e] eqn:Hp; try discriminate Hx.
  - now rewrite (Prim2SF_inj x neg_infinity Hp).
  - now rewrite (Prim2SF_inj x infinity Hp).
  - now rewrite (Prim2SF_inj x nan Hp).
Qed.

Lemma alpha0_zero_area (w h : Z) :
  w = 0%Z \/ h = 0%Z -> is_nan (alpha0 w h) || is_infinity (alpha0 w h) = true.
Proof.
  intros Hz. apply not_finite_prim. unfold alpha0. rewrite div_spec.
  apply SFdiv_zero_not_finite. unfold area. rewrite mul_spec.
  destruct Hz as [-> | ->]; change (Double.of_int 0) with 0;
    change (Prim2SF 0) with (S754_zero false).
  - destruct (SFmul_zero_l (Prim2SF (Double.of_int h)) false); auto.
  - destruct (SFmul_zero_r (Prim2SF (Double.of_int w)) false); auto.
Qed.

(** X14: [orsa_fundamental] does not test the dimensions: for an image
    of width 0 or height 0 the [alpha0] it runs the engine with is a NaN or
    infinite. *)
Theorem orsa_fundamental_zero_area
  FM OR (vec_matchings : list Match) (w1 h1 w2 h2 : Z)
  (precision : float) (nbIter : Z) (F : Model) (vec_inliers : list Z) :
  (size_t_of_int (SizeSample (build_model FM vec_matchings w1 h1 w2 h2))
   < Z.of_nat (length vec_matchings))%Z ->
  valid_inliers vec_matchings
    (snd (fst (fst (OR (build_model FM vec_matchings w1 h1 w2 h2)
                      (alpha0 w1 h1) (alpha0 w2 h2) vec_inliers nbIter
                      precision F true)))) ->
  exists r aL aR tr,
    orsa_fundamental FM OR vec_matchings w1 h1 w2 h2 precision nbIter F
      vec_inliers = Some (r, OrsaRun aL aR :: tr)
    /\ (w1 = 0%Z \/ h1 = 0%Z -> is_nan aL || is_infinity aL = true)
    /\ (w2 = 0%Z \/ h2 = 0%Z -> is_nan aR || is_infinity aR = true).
Proof.
  intros Hn Hv.
  destruct (OR _ _ _ _ _ _ _ _) as [[[nfa inl] p] F1] eqn:HOR. simpl in Hv.
  rewrite (orsa_fundamental_enough FM OR _ _ _ _ _ _ _ _ _ nfa inl p F1 Hn HOR).
  destruct (0 <? nfa).
  - do 4 eexists. split; [reflexivity |]. split; apply alpha0_zero_area.
  - destruct (refine_defined (build_model FM vec_matchings w1 h1 w2 h2)
                _ _ F1 Hv) as (F2 & tr & ->).
    do 4 eexists. split; [reflexivity |]. split; apply alpha0_zero_area.
Qed.

Lemma orsa_fundamental_zero_area_witness :
  exists r aL aR tr,
    orsa_fundamental (Stub.FundamentalModel None)
      (Stub.Orsa_run 1 [] 0.5 Stub.transM) Stub.matches8
      0 480 640 0 1 100 Stub.zeroM []
    = Some (r, OrsaRun aL aR :: tr)
    /\ (0%Z = 0%Z \/ 480%Z = 0%Z -> is_nan aL || is_infinity aL = true)
    /\ (640%Z = 0%Z \/ 0%Z = 0%Z -> is_nan aR || is_infinity aR = true).
Proof.
  apply (orsa_fundamental_zero_area (Stub.FundamentalModel None)
           (Stub.Orsa_run 1 [] 0.5 Stub.transM) Stub.matches8
           0 480 640 0 1 100 Stub.zeroM []); concrete.
Defined.

Lemma SFmul_comm (x y : spec_float) : SF64mul x y = SF64mul y x.
Proof.
  destruct x as [sx | sx | | sx mx ex], y as [sy | sy | | sy my ey];
    simpl; try reflexivity; try (now rewrite xorb_comm).
  now rewrite xorb_comm, Pos.mul_comm, Z.add_comm.
Qed.

Lemma SFadd_comm (x y : spec_float) : SF64add x y = SF64add y x.
Proof.
  destruct x as [[|] | [|] | | sx mx ex], y as [[|] | [|] | | sy my ey];
    try reflexivity.
  unfold SF64add, SFadd. now rewrite Z.min_comm, Z.add_comm.
Qed.

Lemma alpha0_comm (w h : Z) : alpha0 w h = alpha0 h w.
Proof.
  unfold alpha0, diagonal, area. f_equal; [f_equal; f_equal |].
  - apply Prim2SF_inj. rewrite !add_spec. apply SFadd_comm.
  - apply Prim2SF_inj. rewrite !mul_spec. apply SFmul_comm.
Qed.

(** X15: exchanging the width and the height of both images does not
    change the two [alpha0] that [orsa_fundamental] runs the engine
    with. *)
Theorem orsa_fundamental_alpha0_transpose
  FM OR (vec_matchings : list Match) (w1 h1 w2 h2 : Z)
  (precision : float) (nbIter : Z) (F : Model) (vec_inliers : list Z) :
  (size_t_of_int (SizeSample (build_model FM vec_matchings h1 w1 h2 w2))
   < Z.of_nat (length vec_matchings))%Z ->
  valid_inliers vec_matchings
    (snd (fst (fst (OR (build_model FM vec_matchings h1 w1 h2 w2)
                      (alpha0 w1 h1) (alpha0 w2 h2) vec_inliers nbIter
                      precision F true)))) ->
  exists r tr,
    orsa_fundamental FM OR vec_matchings h1 w1 h2 w2 precision nbIter F
      vec_inliers = Some (r, OrsaRun (alpha0 w1 h1) (alpha0 w2 h2) :: tr).
Proof.
  intros Hn Hv.
  destruct (OR _ _ _ _ _ _ _ _) as [[[nfa inl] p] F1] eqn:HOR. simpl in Hv.
  rewrite (alpha0_comm w1 h1), (alpha0_comm w2 h2) in *.
  rewrite (orsa_fundamental_enough FM OR _ _ _ _ _ _ _ _ _ nfa inl p F1 Hn HOR).
  destruct (0 <? nfa).
  - do 2 eexists. reflexivity.
  - destruct (refine_defined (build_model FM vec_matchings h1 w1 h2 w2)
                _ _ F1 Hv) as (F2 & tr & ->).
    do 2 eexists. reflexivity.
Qed.

Lemma orsa_fundamental_alpha0_transpose_witness :
  exists r tr,
    orsa_fundamental (Stub.FundamentalModel None)
      (Stub.Orsa_run 1 [] 0.5 Stub.transM) Stub.matches8
      480 640 800 1000 1 100 Stub.zeroM []
    = Some (r, OrsaRun (alpha0 640 480) (alpha0 1000 800) :: tr).
Proof.
  apply (orsa_fundamental_alpha0_transpose (Stub.FundamentalModel None)
           (Stub.Orsa_run 1 [] 0.5 Stub.transM) Stub.matches8
           640 480 1000 800 1 100 Stub.zeroM []); concrete.
Defined.

(** ** Inliers whose error is a number *)

Lemma regular_number (F : Model) (m : Match) :
  regular F m = true -> nonneg (Prim2SF (inlier_error F m)) = true.
Proof.
  unfold regular, inlier_error, epipolar_line.
  intros Hr. apply andb_prop in Hr. destruct Hr as [Hr Hinf].
  apply andb_prop in Hr. destruct Hr as [Hd Hpos].
  apply negb_true_iff in Hd, Hinf.
  rewrite div_spec. apply SFdiv_number.
  - rewrite mul_spec. apply SFmul_self_number. now apply Prim2SF_not_nan.
  - now apply finite_positive.
Qed.

Lemma inlier_errors_origin (match_ : list Match) (F : Model) (e : float) :
  forall in_ es,
    inlier_errors match_ in_ F = Some es -> In e es ->
    exists i m, In i in_ /\ match_at match_ i = Some m /\ e = inlier_error F m.
Proof.
  induction in_ as [| j rest IH]; simpl; intros es He Hin.
  - injection He as <-. contradiction.
  - destruct (match_at match_ j) as [mj |] eqn:Hj; [| discriminate].
    destruct (inlier_errors match_ rest F) as [es' |]; [| discriminate].
    injection He as <-. destruct Hin as [<- | Hin].
    + exists j, mj. repeat split; auto.
    + destruct (IH es' eq_refl Hin) as (i & m & Hi & Hm & ->).
      exists i, m. repeat split; auto.
Qed.

(** ** The order of the inlier list *)

Lemma SFleb_antisym (x y : spec_float) :
  nonneg x = true -> nonneg y = true ->
  SFleb x y = true -> SFleb y x = true -> x = y.
Proof.
  destruct x as [[|] | [|] | | [|] mx ex]; try discriminate;
    destruct y as [[|] | [|] | | [|] my ey]; try discriminate;
    try reflexivity.
  intros _ _. unfold SFleb, SFcompare.
  change (Pos.compare_cont Eq mx my) with (mx ?= my)%positive.
  change (Pos.compare_cont Eq my mx) with (my ?= mx)%positive.
  destruct (Z.compare_spec ex ey), (Z.compare_spec ey ex); try lia;
    try discriminate.
  destruct (Pos.compare_spec mx my), (Pos.compare_spec my mx); try lia;
    try discriminate.
  intros _ _. congruence.
Qed.

Lemma maximum_unique (l : list float) (m1 m2 : float) :
  Forall (fun x => nonneg (Prim2SF x) = true) l ->
  is_maximum l m1 -> is_maximum l m2 -> m1 = m2.
Proof.
  intros Hall [Hin1 Hmax1] [Hin2 Hmax2]. rewrite Forall_forall in Hall.
  apply Prim2SF_inj. apply SFleb_antisym; auto; rewrite <- leb_spec; auto.
Qed.

Lemma inlier_errors_permutation (match_ : list Match) (F : Model)
  (in1 in2 : list Z) :
  Permutation in1 in2 ->
  forall es1, inlier_errors match_ in1 F = Some es1 ->
  exists es2, inlier_errors match_ in2 F = Some es2 /\ Permutation es1 es2.
Proof.
  induction 1 as [| i l1 l2 _ IH | i j l | l1 l2 l3 _ IH1 _ IH2];
    intros es1 He.
  - exists es1. split; [assumption | apply Permutation_refl].
  - simpl in *. destruct (match_at match_ i) as [m |]; [| discriminate].
    destruct (inlier_errors match_ l1 F) as [es |]; [| discriminate].
    injection He as <-. destruct (IH es eq_refl) as (es2 & -> & Hp).
    eexists. split; [reflexivity | now constructor].
  - simpl in *. destruct (match_at match_ j) as [mj |]; [| discriminate].
    destruct (match_at match_ i) as [mi |]; [| discriminate].
    destruct (inlier_errors match_ l F) as [es |]; [| discriminate].
    injection He as <-. eexists. split; [reflexivity | apply perm_swap].
  - destruct (IH1 es1 He) as (es2 & He2 & Hp12).
    destruct (IH2 es2 He2) as (es3 & He3 & Hp23).
    exists es3. split; [assumption | now apply perm_trans with es2].
Qed.

Lemma numbers_permutation (es1 es2 : list float) :
  Permutation es1 es2 -> Permutation (numbers es1) (numbers es2).
Proof.
  induction 1 as [| e l1 l2 _ IH | e1 e2 l | l1 l2 l3 _ IH1 _ IH2]; simpl.
  - constructor.
  - destruct (negb (is_nan e)); [now constructor | assumption].
  - destruct (negb (is_nan e1)), (negb (is_nan e2));
      try apply Permutation_refl; apply perm_swap.
  - now apply perm_trans with (numbers l2).
Qed.

Lemma running_maximum_permutation (es1 es2 : list float) :
  Forall (fun e => nonneg_or_nan (Prim2SF e) = true) es1 ->
  Permutation es1 es2 ->
  fold_left fmax_step es1 0 = fold_left fmax_step es2 0.
Proof.
  intros Hall1 Hp.
  assert (Hall2 : Forall (fun e => nonneg_or_nan (Prim2SF e) = true) es2).
  { rewrite Forall_forall in *. intros e Hin. apply Hall1.
    apply Permutation_in with es2; [now apply Permutation_sym | assumption]. }
  pose proof (numbers_permutation _ _ Hp) as Hpn.
  destruct (running_maximum_numbers es1 Hall1) as [[Hn1 ->] | Hm1];
    destruct (running_maximum_numbers es2 Hall2) as [[Hn2 ->] | Hm2].
  - reflexivity.
  - rewrite Hn1 in Hpn. apply Permutation_nil in Hpn. rewrite Hpn in Hm2.
    destruct Hm2 as [[] _].
  - rewrite Hn2 in Hpn. apply Permutation_sym, Permutation_nil in Hpn.
    rewrite Hpn in Hm1. destruct Hm1 as [[] _].
  - apply (maximum_unique (numbers es2)); [now apply numbers_nonneg | | exact Hm2].
    destruct Hm1 as [Hin Hmax]. split.
    + now apply Permutation_in with (numbers es1).
    + intros e He. apply Hmax.
      apply Permutation_in with (numbers es2);
        [now apply Permutation_sym | assumption].
Qed.

(** X4: the maximum [display_stats] reports does not depend on the order
    of the inlier list: on a permutation of the list it is defined too and
    reports the same maximum. *)
Theorem display_stats_max_permutation (match_ : list Match)
  (in1 in2 : list Z) (F : Model) (r1 : float * float) (t1 : list event) :
  Permutation in1 in2 ->
  display_stats match_ in1 F = Some (r1, t1) ->
  exists r2 t2,
    display_stats match_ in2 F = Some (r2, t2) /\ snd r2 = snd r1.
Proof.
  intros Hp Hd. destruct (display_stats_errors _ _ _ _ _ Hd) as (es1 & He1 & ->).
  destruct (inlier_errors_permutation _ _ _ _ Hp es1 He1) as (es2 & He2 & Hpe).
  rewrite (display_stats_folds _ _ _ _ He2). do 2 eexists.
  split; [reflexivity |]. simpl. f_equal. symmetry.
  apply running_maximum_permutation; [| assumption].
  apply (inlier_errors_nonneg _ _ _ _ He1).
Qed.

Lemma display_stats_max_permutation_witness :
  exists r2 t2,
    display_stats Stub.matches8 [7; 0; 1]%Z Stub.forwardM = Some (r2, t2)
    /\ snd r2 = sqrt 0.5.
Proof.
  apply (display_stats_max_permutation Stub.matches8 [0; 1; 7]%Z [7; 0; 1]%Z
           Stub.forwardM (nan, sqrt 0.5) [AverageMax nan (sqrt 0.5)]);
    [| reflexivity].
  apply Permutation_sym.
  apply (Permutation_cons_app [0; 1]%Z [] 7%Z). apply Permutation_refl.
Defined.

(** ** The maximum over two lists put end to end *)

Lemma SFltb_trans (x y z : spec_float) :
  nonneg x = true -> nonneg y = true -> nonneg z = true ->
  SFltb x y = true -> SFltb y z = true -> SFltb x z = true.
Proof.
  destruct x as [[|] | [|] | | [|] mx ex]; try discriminate;
    destruct y as [[|] | [|] | | [|] my ey]; try discriminate;
    destruct z as [[|] | [|] | | [|] mz ez]; try discriminate;
    try reflexivity; try discriminate.
  intros _ _ _. unfold SFltb, SFcompare.
  change (Pos.compare_cont Eq mx my) with (mx ?= my)%positive.
  change (Pos.compare_cont Eq my mz) with (my ?= mz)%positive.
  change (Pos.compare_cont Eq mx mz) with (mx ?= mz)%positive.
  destruct (Z.compare_spec ex ey), (Z.compare_spec ey ez),
    (Z.compare_spec ex ez); try lia; try discriminate; try reflexivity;
    destruct (Pos.compare_spec mx my), (Pos.compare_spec my mz),
      (Pos.compare_spec mx mz); try lia; try discriminate; reflexivity.
Qed.

Lemma SFltb_cotrans (x y z : spec_float) :
  nonneg x = true -> nonneg y = true -> nonneg z = true ->
  SFltb x y = false -> SFltb y z = false -> SFltb x z = false.
Proof.
  destruct x as [[|] | [|] | | [|] mx ex]; try discriminate;
    destruct y as [[|] | [|] | | [|] my ey]; try discriminate;
    destruct z as [[|] | [|] | | [|] mz ez]; try discriminate;
    try reflexivity; try discriminate.
  intros _ _ _. unfold SFltb, SFcompare.
  change (Pos.compare_cont Eq mx my) with (mx ?= my)%positive.
  change (Pos.compare_cont Eq my mz) with (my ?= mz)%positive.
  change (Pos.compare_cont Eq mx mz) with (mx ?= mz)%positive.
  destruct (Z.compare_spec ex ey), (Z.compare_spec ey ez),
    (Z.compare_spec ex ez); try lia; try discriminate; try reflexivity;
    destruct (Pos.compare_spec mx my), (Pos.compare_spec my mz),
      (Pos.compare_spec mx mz); try lia; try discriminate; reflexivity.
Qed.

Lemma fmax_step_number (c e : float) :
  nonneg (Prim2SF c) = true -> nonneg_or_nan (Prim2SF e) = true ->
  nonneg (Prim2SF (fmax_step c e)) = true.
Proof.
  intros Hc He. unfold fmax_step. destruct (c <? e) eqn:Hlt; [| exact Hc].
  apply nonneg_of_not_nan; [exact He |].
  destruct (is_nan e) eqn:Hn; [| reflexivity].
  now rewrite (ltb_nan_r c e Hn) in Hlt.
Qed.

Lemma fmax_step_assoc (a c e : float) :
  nonneg (Prim2SF a) = true -> nonneg (Prim2SF c) = true ->
  nonneg_or_nan (Prim2SF e) = true ->
  fmax_step (fmax_step a c) e = fmax_step a (fmax_step c e).
Proof.
  intros Ha Hc He. destruct (is_nan e) eqn:Hn.
  - now rewrite !(fmax_step_nan _ e Hn).
  - pose proof (nonneg_of_not_nan e He Hn) as He'. unfold fmax_step.
    destruct (a <? c) eqn:Hac, (c <? e) eqn:Hce; try rewrite Hac;
      try rewrite Hce; try reflexivity.
    + assert (Hae : (a <? e) = true).
      { rewrite ltb_spec in *. now apply (SFltb_trans _ (Prim2SF c)). }
      now rewrite Hae.
    + assert (Hae : (a <? e) = false).
      { rewrite ltb_spec in *. now apply (SFltb_cotrans _ (Prim2SF c)). }
      now rewrite Hae.
Qed.

Lemma fold_fmax_from (es : list float) :
  forall a c,
    nonneg (Prim2SF a) = true -> nonneg (Prim2SF c) = true ->
    Forall (fun e => nonneg_or_nan (Prim2SF e) = true) es ->
    fold_left fmax_step es (fmax_step a c)
    = fmax_step a (fold_left fmax_step es c).
Proof.
  induction es as [| e es IH]; intros a c Ha Hc Hall; simpl; [reflexivity |].
  inversion Hall as [| ? ? He Hes]; subst.
  rewrite (fmax_step_assoc a c e Ha Hc He).
  apply IH; try assumption. now apply fmax_step_number.
Qed.

Lemma fmax_step_zero_r (a : float) :
  nonneg (Prim2SF a) = true -> fmax_step a 0 = a.
Proof.
  intros Ha. unfold fmax_step. rewrite ltb_spec.
  change (Prim2SF 0) with (S754_zero false).
  destruct (Prim2SF a) as [[|] | [|] | | [|] m e]; try discriminate Ha;
    reflexivity.
Qed.

Lemma inlier_errors_app (match_ : list Match) (F : Model) (in2 : list Z)
  (es2 : list float) :
  inlier_errors match_ in2 F = Some es2 ->
  forall in1 es1,
    inlier_errors match_ in1 F = Some es1 ->
    inlier_errors match_ (in1 ++ in2) F = Some (es1 ++ es2).
Proof.
  intros He2. induction in1 as [| i rest IH]; simpl; intros es1 He1.
  - now injection He1 as <-.
  - destruct (match_at match_ i) as [m |]; [| discriminate].
    destruct (inlier_errors match_ rest F) as [es |]; [| discriminate].
    injection He1 as <-. now rewrite (IH es eq_refl).
Qed.

(** X5: on two inlier lists put end to end, the maximum [display_stats]
    reports is the one of the list whose largest squared distance is the
    larger, hence one of the two maxima. *)
Theorem display_stats_max_app (match_ : list Match) (in1 in2 : list Z)
  (F : Model) (r1 r2 : float * float) (t1 t2 : list event) :
  display_stats match_ in1 F = Some (r1, t1) ->
  display_stats match_ in2 F = Some (r2, t2) ->
  exists r t linf1 linf2,
    display_stats match_ (in1 ++ in2) F = Some (r, t)
    /\ snd r1 = sqrt linf1 /\ snd r2 = sqrt linf2
    /\ snd r = sqrt (if linf1 <? linf2 then linf2 else linf1)
    /\ (snd r = snd r1 \/ snd r = snd r2).
Proof.
  intros Hd1 Hd2.
  destruct (display_stats_errors _ _ _ _ _ Hd1) as (es1 & He1 & ->).
  destruct (display_stats_errors _ _ _ _ _ Hd2) as (es2 & He2 & ->).
  pose proof (inlier_errors_nonneg _ _ _ _ He1) as Hall1.
  pose proof (inlier_errors_nonneg _ _ _ _ He2) as Hall2.
  rewrite (display_stats_folds _ _ _ _ (inlier_errors_app _ _ _ _ He2 _ _ He1)).
  exists (sqrt (mean (es1 ++ es2)), sqrt (fold_left fmax_step (es1 ++ es2) 0)).
  eexists. exists (fold_left fmax_step es1 0), (fold_left fmax_step es2 0).
  split; [reflexivity |]. split; [reflexivity |]. split; [reflexivity |].
  assert (Heq : fold_left fmax_step (es1 ++ es2) 0
                = fmax_step (fold_left fmax_step es1 0)
                    (fold_left fmax_step es2 0)).
  { rewrite fold_left_app.
    rewrite <- (fmax_step_zero_r (fold_left fmax_step es1 0)) at 1
      by now apply running_maximum_number.
    apply fold_fmax_from; [now apply running_maximum_number | reflexivity
                          | assumption]. }
  simpl. rewrite Heq. unfold fmax_step. split; [reflexivity |].
  destruct (_ <? _); auto.
Qed.

Lemma display_stats_max_app_witness :
  exists r t linf1 linf2,
    display_stats Stub.matches8 ([0; 1] ++ [7])%Z Stub.transM = Some (r, t)
    /\ 0 = sqrt linf1 /\ 1 = sqrt linf2
    /\ snd r = sqrt (if linf1 <? linf2 then linf2 else linf1)
    /\ (snd r = 0 \/ snd r = 1).
Proof.
  apply (display_stats_max_app Stub.matches8 [0; 1]%Z [7]%Z Stub.transM
           (0, 0) (1, 1) [AverageMax 0 0] [AverageMax 1 1]); reflexivity.
Defined.

(** ** What the entry operations return after the refinement *)

Lemma refine_result (model : ModelEstimator) (vec_matchings : list Match)
  (vec_inliers : list Z) (M : Model) :
  valid_inliers vec_matchings vec_inliers ->
  exists M' tr err t,
    refine model vec_matchings vec_inliers M = Some (M', tr)
    /\ display_stats vec_matchings vec_inliers M = Some (err, t)
    /\ (M' = M
        \/ exists err2 t2,
             ComputeModel model vec_inliers = Some M'
             /\ display_stats vec_matchings vec_inliers M' = Some (err2, t2)
             /\ (fst err2 <=? snd err) = true).
Proof.
  intros Hv. destruct (display_stats_defined _ _ M Hv) as [err H1].
  pose proof (refine_cases model _ _ _ _ _ H1) as Hc.
  destruct (ComputeModel model vec_inliers) as [M2 |].
  - destruct (display_stats_defined _ _ M2 Hv) as [err2 H2].
    rewrite (Hc _ _ H2). destruct (fst err2 <=? snd err) eqn:Hle.
    + exists M2. do 3 eexists. split; [reflexivity |].
      split; [exact H1 |]. right. exists err2. eexists.
      split; [reflexivity |]. split; [exact H2 | exact Hle].
    + exists M. do 3 eexists. split; [reflexivity |]. split; [exact H1 |].
      now left.
  - rewrite Hc. exists M. do 3 eexists. split; [reflexivity |].
    split; [exact H1 |]. now left.
Qed.

(** X12: the model [ransac_fundamental] and [orsa_fundamental] return
    with the inliers of the engine is the model of the engine, or the fit of
    [ComputeModel] over these inliers, and then the RMS error of the fit is at
    most the maximum error of the model of the engine. *)
Theorem entry_operations_refine_safely
  FM RR OR (vec_matchings : list Match) (w1 h1 w2 h2 : Z)
  (precision : float) (nbIter : Z) (beta : float) (M : Model)
  (vec_inliers : list Z) :
  (forall k inl H1,
      (size_t_of_int (SizeSample (build_model FM vec_matchings w1 h1 w2 h2))
       <= Z.of_nat (length vec_matchings))%Z ->
      RR (build_model FM vec_matchings w1 h1 w2 h2) vec_inliers precision
        nbIter M beta true = (k, inl, H1) ->
      valid_inliers vec_matchings inl ->
      exists H' tr err t,
        ransac_fundamental FM RR vec_matchings w1 h1 w2 h2 precision nbIter
          beta M vec_inliers = Some ((true, H', inl), tr)
        /\ display_stats vec_matchings inl H1 = Some (err, t)
        /\ (H' = H1
            \/ exists err2 t2,
                 ComputeModel (build_model FM vec_matchings w1 h1 w2 h2) inl
                 = Some H'
                 /\ display_stats vec_matchings inl H' = Some (err2, t2)
                 /\ (fst err2 <=? snd err) = true))
  /\ (forall nfa inl p F1,
         (size_t_of_int (SizeSample (build_model FM vec_matchings w1 h1 w2 h2))
          < Z.of_nat (length vec_matchings))%Z ->
         OR (build_model FM vec_matchings w1 h1 w2 h2) (alpha0 w1 h1)
           (alpha0 w2 h2) vec_inliers nbIter precision M true
         = (nfa, inl, p, F1) ->
         valid_inliers vec_matchings inl ->
         exists F' tr err t,
           orsa_fundamental FM OR vec_matchings w1 h1 w2 h2 precision nbIter
             M vec_inliers = Some ((true, F', inl), tr)
           /\ display_stats vec_matchings inl F1 = Some (err, t)
           /\ (F' = F1
               \/ exists err2 t2,
                    ComputeModel (build_model FM vec_matchings w1 h1 w2 h2) inl
                    = Some F'
                    /\ display_stats vec_matchings inl F' = Some (err2, t2)
                    /\ (fst err2 <=? snd err) = true)).
Proof.
  split.
  - intros k inl H1 Hn HRR Hv.
    rewrite (ransac_fundamental_enough FM RR _ _ _ _ _ _ _ _ _ _ k inl H1 Hn
               HRR).
    destruct (refine_result (build_model FM vec_matchings w1 h1 w2 h2)
                _ _ H1 Hv) as (H' & tr & err & t & -> & Hd & Hres).
    exists H'. do 3 eexists. split; [reflexivity |]. split; [exact Hd |].
    exact Hres.
  - intros nfa inl p F1 Hn HOR Hv.
    rewrite (orsa_fundamental_enough FM OR _ _ _ _ _ _ _ _ _ nfa inl p F1 Hn
               HOR).
    destruct (0 <? nfa).
    + destruct (display_stats_defined _ _ F1 Hv) as [err Hd].
      exists F1. do 3 eexists. split; [reflexivity |]. split; [exact Hd |].
      now left.
    + destruct (refine_result (build_model FM vec_matchings w1 h1 w2 h2)
                  _ _ F1 Hv) as (F' & tr & err & t & -> & Hd & Hres).
      exists F'. do 3 eexists. split; [reflexivity |]. split; [exact Hd |].
      exact Hres.
Qed.

Lemma entry_operations_refine_safely_witness :
  exists H' tr err t,
    ransac_fundamental (Stub.FundamentalModel (Some Stub.transM))
      (Stub.Ransac_run 3 [0; 1]%Z Stub.shiftM) Stub.matches8 640 480 640 480
      1 100 0.5 Stub.zeroM [] = Some ((true, H', [0; 1]%Z), tr)
    /\ display_stats Stub.matches8 [0; 1]%Z Stub.shiftM = Some (err, t)
    /\ (H' = Stub.shiftM
        \/ exists err2 t2,
             Some Stub.transM = Some H'
             /\ display_stats Stub.matches8 [0; 1]%Z H' = Some (err2, t2)
             /\ (fst err2 <=? snd err) = true).
Proof.
  apply (proj1 (entry_operations_refine_safely
                  (Stub.FundamentalModel (Some Stub.transM))
                  (Stub.Ransac_run 3 [0; 1]%Z Stub.shiftM)
                  (Stub.Orsa_run 0 [] 0.5 Stub.shiftM) Stub.matches8
                  640%Z 480%Z 640%Z 480%Z 1 100%Z 0.5 Stub.zeroM [])
           3%Z [0; 1]%Z Stub.shiftM); concrete.
Defined.

(** ** The size of a list as a [double] *)

Lemma digits2_pos_lower (p : positive) :
  (2 ^ (Zpos (digits2_pos p) - 1) <= Zpos p)%Z.
Proof.
  induction p as [p IH | p IH |]; simpl digits2_pos.
  - rewrite Pos2Z.inj_succ.
    replace (Z.succ (Zpos (digits2_pos p)) - 1)%Z
      with (Z.succ (Zpos (digits2_pos p) - 1))%Z by lia.
    rewrite Z.pow_succ_r by lia. lia.
  - rewrite Pos2Z.inj_succ.
    replace (Z.succ (Zpos (digits2_pos p)) - 1)%Z
      with (Z.succ (Zpos (digits2_pos p) - 1))%Z by lia.
    rewrite Z.pow_succ_r by lia. lia.
  - simpl. lia.
Qed.

Lemma digits2_pos_bound (p : positive) (k : Z) :
  (Zpos p < 2 ^ k)%Z -> (Zpos (digits2_pos p) <= k)%Z.
Proof.
  intros Hp. pose proof (digits2_pos_lower p) as Hl.
  destruct (Z.le_gt_cases (Zpos (digits2_pos p)) k) as [Hle | Hgt]; [exact Hle |].
  assert (2 ^ k <= 2 ^ (Zpos (digits2_pos p) - 1))%Z
    by (apply Z.pow_le_mono_r; lia).
  lia.
Qed.

Lemma digits2_pos_iter_xO (p k : positive) :
  digits2_pos (Pos.iter xO p k) = (digits2_pos p + k)%positive.
Proof.
  induction k as [| k IH] using Pos.peano_ind.
  - simpl. lia.
  - rewrite Pos.iter_succ. simpl. rewrite IH. lia.
Qed.

Lemma binary_round_aux_exact (m : positive) (e : Z) :
  digits2_pos m = 53%positive -> (-1074 <= e <= 971)%Z ->
  binary_round_aux prec emax false (Zpos m) e loc_Exact
  = S754_finite false m e.
Proof.
  intros Hd He.
  assert (Hshr : shr_fexp prec emax (Zpos m) e loc_Exact
                 = ({| shr_m := Zpos m; shr_r := false; shr_s := false |}, e)).
  { unfold shr_fexp, Zdigits2. rewrite Hd.
    replace (fexp prec emax (53 + e) - e)%Z with 0%Z; [reflexivity |].
    unfold fexp, emin, prec, emax. lia. }
  unfold binary_round_aux. rewrite Hshr. simpl shr_m.
  change (loc_of_shr_record _) with loc_Exact. simpl round_nearest_even.
  rewrite Hshr. simpl shr_m.
  destruct (Z.leb_spec e (emax - prec)) as [_ | Hgt]; [reflexivity |].
  unfold emax, prec in Hgt. lia.
Qed.

Lemma binary_round_small (p : positive) :
  (Zpos p < 2 ^ 53)%Z ->
  exists m e, binary_round prec emax false p 0 = S754_finite false m e.
Proof.
  intros Hp. pose proof (digits2_pos_bound p 53 Hp) as Hd.
  unfold binary_round.
  replace (fexp prec emax (Zpos (digits2_pos p) + 0))
    with (Zpos (digits2_pos p) - 53)%Z
    by (unfold fexp, emin, prec, emax; lia).
  unfold shl_align.
  destruct (Zpos (digits2_pos p) - 53 - 0)%Z as [| k | k] eqn:Hk; try lia.
  - do 2 eexists. apply binary_round_aux_exact; [lia | lia].
  - do 2 eexists. apply binary_round_aux_exact; [| lia].
    rewrite digits2_pos_iter_xO. lia.
Qed.

Lemma of_size_positive (n : nat) :
  (0 < Z.of_nat n < 2 ^ 53)%Z ->
  exists m e, Prim2SF (Double.of_size n) = S754_finite false m e.
Proof.
  intros Hn. unfold Double.of_size. rewrite of_uint63_spec.
  rewrite Uint63.of_Z_spec, Z.mod_small
    by (change Uint63.wB with (2 ^ 63)%Z; split; [lia |];
        apply Z.lt_trans with (2 ^ 53)%Z; [lia | reflexivity]).
  destruct (Z.of_nat n) as [| p | p]; try lia.
  apply binary_round_small. lia.
Qed.

(** ** When the RMS is a number *)

Lemma sum_number (es : list float) :
  forall acc,
    Forall (fun e => nonneg (Prim2SF e) = true) es ->
    nonneg (Prim2SF acc) = true ->
    nonneg (Prim2SF (fold_left add es acc)) = true.
Proof.
  induction es as [| e es IH]; intros acc Hall Hacc; simpl; [assumption |].
  inversion Hall as [| ? ? He Hes]; subst. apply IH; [assumption |].
  rewrite add_spec. now apply SFadd_number.
Qed.

Lemma rms_number (es : list float) :
  (0 < Z.of_nat (length es) < 2 ^ 53)%Z ->
  Forall (fun e => nonneg (Prim2SF e) = true) es ->
  nonneg (Prim2SF (sqrt (mean es))) = true.
Proof.
  intros Hlen Hall. rewrite sqrt_spec. apply SFsqrt_number.
  unfold mean. rewrite div_spec. apply SFdiv_number.
  - now apply sum_number.
  - now apply of_size_positive.
Qed.

(** X3: a single squared distance that is a NaN makes the RMS a NaN; and
    on a list of at least one and fewer than 2^53 inliers the RMS is a NaN
    only then. *)
Theorem display_stats_rms_nan_iff (match_ : list Match) (in_ : list Z)
  (F : Model) (es : list float) :
  inlier_errors match_ in_ F = Some es ->
  exists r tr,
    display_stats match_ in_ F = Some (r, tr)
    /\ (Exists (fun e => is_nan e = true) es -> is_nan (fst r) = true)
    /\ ((0 < Z.of_nat (length in_) < 2 ^ 53)%Z ->
        is_nan (fst r) = true -> Exists (fun e => is_nan e = true) es).
Proof.
  intros He. rewrite (display_stats_folds _ _ _ _ He).
  do 2 eexists. split; [reflexivity |]. simpl fst. split; [apply rms_nan |].
  intros Hlen Hnan. apply Exists_exists.
  destruct (existsb is_nan es) eqn:Hex.
  - apply existsb_exists in Hex. exact Hex.
  - exfalso.
    assert (Hall : Forall (fun e => nonneg (Prim2SF e) = true) es).
    { pose proof (inlier_errors_nonneg _ _ _ _ He) as Hnn.
      rewrite Forall_forall in *. intros e Hin.
      apply nonneg_of_not_nan; [now apply Hnn |].
      destruct (is_nan e) eqn:Hn; [| reflexivity].
      assert (existsb is_nan es = true)
        by (apply existsb_exists; now exists e).
      congruence. }
    rewrite <- (inlier_errors_length _ _ _ _ He) in Hlen.
    pose proof (number_not_nan _ (rms_number es Hlen Hall)). congruence.
Qed.

Lemma display_stats_rms_nan_iff_witness :
  exists r tr,
    display_stats Stub.matches8 [7; 0; 1]%Z Stub.forwardM = Some (r, tr)
    /\ (Exists (fun e => is_nan e = true) [0; nan; 0.5] ->
        is_nan (fst r) = true)
    /\ ((0 < 3 < 2 ^ 53)%Z ->
        is_nan (fst r) = true ->
        Exists (fun e => is_nan e = true) [0; nan; 0.5]).
Proof.
  apply (display_stats_rms_nan_iff Stub.matches8 [7; 0; 1]%Z Stub.forwardM
           [0; nan; 0.5]).
  reflexivity.
Defined.

(** X8: when, for every inlier, [d] is not a NaN and the squared length
    [a*a + b*b] of the normal is finite and above 0, on a list of at least one
    and fewer than 2^53 inliers, [display_stats] returns the square roots of
    the mean and of the maximum of the squared distances, and both are
    numbers that are not negative. *)
Theorem display_stats_rms_max_regular (match_ : list Match) (in_ : list Z)
  (F : Model) :
  (0 < Z.of_nat (length in_) < 2 ^ 53)%Z ->
  valid_inliers match_ in_ ->
  (forall i m, In i in_ -> match_at match_ i = Some m -> regular F m = true) ->
  exists es r,
    inlier_errors match_ in_ F = Some es
    /\ display_stats match_ in_ F = Some (r, [AverageMax (fst r) (snd r)])
    /\ rms_max_of es r
    /\ (0 <=? fst r) = true /\ (0 <=? snd r) = true.
Proof.
  intros Hlen Hv Hreg.
  destruct (display_stats_defined _ _ F Hv) as [err Hd].
  destruct (display_stats_errors _ _ _ _ _ Hd) as (es & He & ->).
  exists es. eexists. split; [exact He |]. split; [exact Hd |].
  assert (Hall : Forall (fun x => nonneg (Prim2SF x) = true) es).
  { rewrite Forall_forall. intros e Hin.
    destruct (inlier_errors_origin _ _ _ _ _ He Hin) as (i & m & Hi & Hm & ->).
    apply regular_number. now apply (Hreg i m). }
  rewrite <- (inlier_errors_length _ _ _ _ He) in Hlen.
  assert (Hes : es <> []) by (intros ->; simpl in Hlen; lia).
  pose proof (running_maximum es Hes Hall) as Hmax.
  split; [| split].
  - split; [reflexivity |]. now exists (fold_left fmax_step es 0).
  - simpl. apply number_leb_zero. now apply rms_number.
  - simpl. apply number_leb_zero. rewrite sqrt_spec. apply SFsqrt_number.
    destruct Hmax as [Hin _]. rewrite Forall_forall in Hall. now apply Hall.
Qed.

Lemma display_stats_rms_max_regular_witness :
  exists es r,
    inlier_errors Stub.matches8 [1; 7]%Z Stub.forwardM = Some es
    /\ display_stats Stub.matches8 [1; 7]%Z Stub.forwardM
       = Some (r, [AverageMax (fst r) (snd r)])
    /\ rms_max_of es r
    /\ (0 <=? fst r) = true /\ (0 <=? snd r) = true.
Proof.
  apply (display_stats_rms_max_regular Stub.matches8 [1; 7]%Z Stub.forwardM);
    [concrete | concrete |].
  intros i m [<- | [<- | []]] [= <-]; reflexivity.
Defined.

(** X9: when the squared distance of every inlier is exactly 0, on a list
    of at least one and fewer than 2^53 inliers, [display_stats] returns
    exactly (0, 0). *)
Theorem display_stats_exact_fit (match_ : list Match) (in_ : list Z)
  (F : Model) :
  (0 < Z.of_nat (length in_) < 2 ^ 53)%Z ->
  valid_inliers match_ in_ ->
  (forall i m, In i in_ -> match_at match_ i = Some m -> inlier_error F m = 0) ->
  display_stats match_ in_ F = Some ((0, 0), [AverageMax 0 0]).
Proof.
  intros Hlen Hv Hzero.
  destruct (display_stats_defined _ _ F Hv) as [err Hd].
  destruct (display_stats_errors _ _ _ _ _ Hd) as (es & He & _).
  assert (Hes : Forall (fun e => e = 0) es).
  { rewrite Forall_forall. intros e Hin.
    destruct (inlier_errors_origin _ _ _ _ _ He Hin) as (i & m & Hi & Hm & ->).
    now apply (Hzero i m). }
  assert (Hsum : forall l, Forall (fun e => e = 0) l -> fold_left add l 0 = 0).
  { induction 1 as [| e l -> _ IH]; [reflexivity | exact IH]. }
  assert (Hmax : forall l, Forall (fun e => e = 0) l ->
                           fold_left fmax_step l 0 = 0).
  { induction 1 as [| e l -> _ IH]; [reflexivity | exact IH]. }
  rewrite (display_stats_folds _ _ _ _ He). unfold mean, sum.
  rewrite (Hsum es Hes), (Hmax es Hes).
  rewrite (inlier_errors_length _ _ _ _ He).
  destruct (of_size_positive (length in_) Hlen) as (m & e & Hn).
  assert (Hdiv : 0 / Double.of_size (length in_) = 0).
  { apply Prim2SF_inj. rewrite div_spec, Hn. reflexivity. }
  rewrite Hdiv. reflexivity.
Qed.

Lemma display_stats_exact_fit_witness :
  display_stats Stub.matches8 [0; 1; 2]%Z Stub.transM
  = Some ((0, 0), [AverageMax 0 0]).
Proof.
  apply (display_stats_exact_fit Stub.matches8 [0; 1; 2]%Z Stub.transM);
    [concrete | concrete |].
  intros i m [<- | [<- | [<- | []]]] [= <-]; reflexivity.
Defined.
